(** * Lotto draw generator: a shallow embedding of [app.py]

    The development follows the source file top to bottom:
    - the JSON values a request body is made of and Python's [int(..)],
    - [validate_combination],
    - [generate_unique_draw] over an injected random source,
    - [analyse_hits],
    - the [/draw] request handler,
    and then states and proves the properties of the pipeline. *)

From Stdlib Require Import ZArith Ascii String Floats.SpecFloat.
From stdpp Require Import base gmap sets list strings sorting pretty.

Set Warnings "-register-all,-clear-no-such-hyp".
Open Scope Z_scope.

(** ** Module constants *)

Definition MAX_COMBINATIONS : nat := 200.
Definition LOTTO_MIN : Z := 1.
Definition LOTTO_MAX : Z := 36.
Definition NUMBERS_PER_COMBINATION : nat := 7.

(** ** Python values and exceptions *)

(** The values [request.get_json()] can produce.  A JSON object is kept as
    the list of its items (keys unique, as in a Python dict); a float is an
    IEEE-754 value in the representation of [SpecFloat]. *)
Inductive pyval : Type :=
  | PNone
  | PBool (b : bool)
  | PInt (z : Z)
  | PFloat (f : spec_float)
  | PStr (s : string)
  | PList (l : list pyval)
  | PDict (items : list (string * pyval)).

Inductive exn : Type :=
  | ValueError
  | TypeError
  | OverflowError
  | KeyError
  | RuntimeError (msg : string).

Inductive result (A : Type) : Type :=
  | Ok (a : A)
  | Raise (e : exn).
Arguments Ok {A} a.
Arguments Raise {A} e.

#[global] Instance result_bind : MBind result := λ A B k r,
  match r with
  | Ok a => k a
  | Raise e => Raise e
  end.

(** *** [int(x)] *)

(** [int] of a float truncates toward zero; NaN is a [ValueError] and an
    infinity an [OverflowError]. *)
Definition int_of_float (f : spec_float) : result Z :=
  match f with
  | S754_zero _ => Ok 0
  | S754_infinity _ => Raise OverflowError
  | S754_nan => Raise ValueError
  | S754_finite s m e =>
      let mag := if 0 <=? e then Z.pos m * 2 ^ e else Z.pos m / 2 ^ (- e) in
      Ok (if s then - mag else mag)
  end.

(** A reader of decimal literals in ASCII: the whitespace of C's [isspace]
    around the literal is dropped, one sign is allowed, and the digits may
    be grouped by single underscores; [None] is a refusal.  The examples at
    the end of the file use it as the interpreter's [int] on strings; their
    strings are a few ASCII characters long, on which it is [int]. *)
Definition is_space (a : ascii) : bool :=
  let n := N_of_ascii a in
  ((9 <=? n) && (n <=? 13) || (n =? 32))%N.

Definition digit_value (a : ascii) : option Z :=
  let n := N_of_ascii a in
  if ((48 <=? n) && (n <=? 57))%N then Some (Z.of_N n - 48) else None.

Fixpoint lstrip (s : list ascii) : list ascii :=
  match s with
  | a :: s' => if is_space a then lstrip s' else s
  | [] => []
  end.

Definition strip (s : list ascii) : list ascii :=
  reverse (lstrip (reverse (lstrip s))).

Fixpoint parse_digits (s : list ascii) (acc : Z) (after_digit : bool)
  : option Z :=
  match s with
  | [] => if after_digit then Some acc else None
  | a :: s' =>
      match digit_value a with
      | Some d => parse_digits s' (10 * acc + d) true
      | None =>
          if after_digit && bool_decide (a = "_"%char)
          then parse_digits s' acc false
          else None
      end
  end.

Definition int_of_ascii (s : string) : option Z :=
  match strip (list_ascii_of_string s) with
  | a :: s' =>
      if bool_decide (a = "-"%char) then Z.opp <$> parse_digits s' 0 false
      else if bool_decide (a = "+"%char) then parse_digits s' 0 false
      else parse_digits (a :: s') 0 false
  | [] => None
  end.

(** [isinstance(n, int)]: [bool] is a subclass of [int], and compares and
    hashes as 0 or 1. *)
Definition as_int (v : pyval) : option Z :=
  match v with
  | PInt z => Some z
  | PBool b => Some (Z.b2z b)
  | _ => None
  end.

(** ** [validate_combination] *)

Definition msg_length : string :=
  "Each combination must have exactly " +:+ pretty NUMBERS_PER_COMBINATION
    +:+ " numbers.".
Definition msg_integers : string := "All numbers must be integers.".
Definition msg_range : string :=
  "All numbers must be between " +:+ pretty LOTTO_MIN +:+ " and "
    +:+ pretty LOTTO_MAX +:+ ".".
Definition msg_unique : string :=
  "Numbers within a combination must be unique.".

(** The [for n in numbers] loop, with the set [seen] as its state. *)
Fixpoint validate_loop (seen : gset Z) (numbers : list pyval)
  : bool * string :=
  match numbers with
  | [] => (true, "")
  | n :: rest =>
      match as_int n with
      | None => (false, msg_integers)
      | Some z =>
          if negb ((LOTTO_MIN <=? z) && (z <=? LOTTO_MAX))
          then (false, msg_range)
          else if bool_decide (z ∈ seen) then (false, msg_unique)
          else validate_loop ({[z]} ∪ seen) rest
      end
  end.

Definition validate_combination (numbers : list pyval) : bool * string :=
  if negb (length numbers =? NUMBERS_PER_COMBINATION)%nat
  then (false, msg_length)
  else validate_loop ∅ numbers.

(** ** Sets and sorting *)

(** [frozenset(c)]. *)
Definition frozenset (c : list Z) : gset Z := list_to_set c.

(** [sorted(xs)] on integers. *)
Definition sorted (xs : list Z) : list Z := merge_sort (≤) xs.

(** [range(lo, hi)]. *)
Definition range (lo hi : Z) : list Z := seqZ lo (hi - lo).

(** [l.sort(key=.., reverse=True)]: the stable descending sort.  Elements
    with equal keys keep their order, which fixes the result, so the
    insertion sort below is the function the call computes. *)
Section StableSort.
Context {A : Type} (key : A → nat).

Fixpoint insert_desc (x : A) (l : list A) : list A :=
  match l with
  | [] => [x]
  | y :: l' =>
      if (key x <? key y)%nat then y :: insert_desc x l' else x :: y :: l'
  end.

Definition sort_desc (l : list A) : list A := foldr insert_desc [] l.
End StableSort.

(** ** [generate_unique_draw] *)

Definition max_attempts : nat := N.to_nat 10000.
Definition msg_exhausted : string :=
  "Could not generate a non-matching draw after 10,000 attempts.".

Section Generator.
(** The state of the [random] module and [random.sample] on it. *)
Context {rng : Type}.
Variable sample : rng → list Z → nat → list Z * rng.

Definition population : list Z := range LOTTO_MIN (LOTTO_MAX + 1).

(** The [for _ in range(max_attempts)] loop. *)
Fixpoint attempts (n : nat) (submitted_sets : gset (gset Z)) (g : rng)
  : result (list Z) * rng :=
  match n with
  | O => (Raise (RuntimeError msg_exhausted), g)
  | S n' =>
      let '(draw, g') := sample g population NUMBERS_PER_COMBINATION in
      if bool_decide (frozenset draw ∉ submitted_sets)
      then (Ok (sorted draw), g')
      else attempts n' submitted_sets g'
  end.

(** The argument is a list of frozensets, as annotated and as the handler
    passes it, so [frozenset(c)] is [c] in the set comprehension. *)
Definition generate_unique_draw (combinations : list (gset Z)) (g : rng)
  : result (list Z) * rng :=
  let submitted_sets : gset (gset Z) := list_to_set combinations in
  attempts max_attempts submitted_sets g.
End Generator.

(** ** [analyse_hits] *)

Record hit_detail : Type := HitDetail {
  index : nat;
  combination : list Z;
  hits : nat;
  hit_numbers : list Z;
  miss_numbers : list Z;
}.

Record hit_report : Type := HitReport {
  six_hits : nat;
  five_hits : nat;
  four_hits : nat;
  total_with_hits : nat;
  details : list hit_detail;
}.

(** One iteration of [for i, combo in enumerate(combinations)]. *)
Definition analyse_step (draw_set : gset Z) (i : nat) (combo : list Z)
    (st : gmap nat nat * list hit_detail) : gmap nat nat * list hit_detail :=
  let '(summary, details) := st in
  let hits := size (frozenset combo ∩ draw_set) in
  let summary :=
    match summary !! hits with
    | Some c => <[hits := (c + 1)%nat]> summary
    | None => summary
    end in
  let details :=
    if (4 <=? hits)%nat
    then details ++ [ {| index := i + 1;
                         combination := sorted combo;
                         hits := hits;
                         hit_numbers :=
                           sorted (elements (frozenset combo ∩ draw_set));
                         miss_numbers :=
                           sorted (elements (frozenset combo ∖ draw_set)) |} ]
    else details in
  (summary, details).

Fixpoint analyse_loop (draw_set : gset Z) (i : nat)
    (combinations : list (list Z)) (st : gmap nat nat * list hit_detail)
  : gmap nat nat * list hit_detail :=
  match combinations with
  | [] => st
  | combo :: rest =>
      analyse_loop draw_set (S i) rest (analyse_step draw_set i combo st)
  end.

(** [sum(summary.values())]. *)
Definition sum_values (summary : gmap nat nat) : nat :=
  sum_list (map_to_list summary).*2.

Definition analyse_hits (combinations : list (list Z)) (draw_set : gset Z)
  : hit_report :=
  let summary : gmap nat nat := {[ 4%nat := 0%nat; 5%nat := 0%nat; 6%nat := 0%nat ]} in
  let '(summary, details) :=
    analyse_loop draw_set 0 combinations (summary, []) in
  let details := sort_desc hits details in
  {| six_hits := summary !!! 6%nat;
     five_hits := summary !!! 5%nat;
     four_hits := summary !!! 4%nat;
     total_with_hits := sum_values summary;
     details := details |}.

(** ** The [/draw] request handler *)

Module Resp.
(** The body of the success response. *)
Record body : Type := Body {
  draw : list Z;
  combinations_submitted : nat;
  unique_combinations : nat;
  message : string;
  hit_report : hit_report;
}.
End Resp.

(** What a request ends in: [jsonify(..), status], or an exception that no
    [except] clause of the handler catches. *)
Inductive response : Type :=
  | JsonError (status : nat) (error : string)
  | JsonOk (body : Resp.body)
  | Unhandled (e : exn).

(** [not data]. *)
Definition falsy (v : pyval) : bool :=
  match v with
  | PNone => true
  | PBool b => negb b
  | PInt z => z =? 0
  | PFloat (S754_zero _) => true
  | PFloat _ => false
  | PStr s => bool_decide (s = "")
  | PList l => bool_decide (length l = 0%nat)
  | PDict items => bool_decide (length items = 0%nat)
  end.

Fixpoint is_substring (p s : string) : bool :=
  String.prefix p s ||
  match s with
  | EmptyString => false
  | String _ s' => is_substring p s'
  end.

Definition is_str (k : string) (v : pyval) : bool :=
  match v with
  | PStr s => bool_decide (s = k)
  | _ => false
  end.

(** [k in data]. *)
Definition py_contains (k : string) (data : pyval) : result bool :=
  match data with
  | PDict items => Ok (bool_decide (k ∈ items.*1))
  | PList l => Ok (existsb (is_str k) l)
  | PStr s => Ok (is_substring k s)
  | _ => Raise TypeError
  end.

Fixpoint dict_get (k : string) (items : list (string * pyval))
  : option pyval :=
  match items with
  | [] => None
  | (k', v) :: rest => if bool_decide (k' = k) then Some v else dict_get k rest
  end.

(** [data[k]] for a string [k]. *)
Definition py_getitem (data : pyval) (k : string) : result pyval :=
  match data with
  | PDict items =>
      match dict_get k items with
      | Some v => Ok v
      | None => Raise KeyError
      end
  | _ => Raise TypeError
  end.

Section Interpreter.
(** [int(s)] on a string [s] is the interpreter's own: which strings it
    accepts depends on its version and settings (the decimal digits and
    spaces of every script, the bound on the number of digits).  It is a
    parameter of everything below; [None] is the [ValueError] it raises on
    a string it does not accept. *)
Variable int_of_string : string → option Z.

Definition py_int (v : pyval) : result Z :=
  match v with
  | PNone => Raise TypeError
  | PBool b => Ok (Z.b2z b)
  | PInt z => Ok z
  | PFloat f => int_of_float f
  | PStr s =>
      match int_of_string s with
      | Some z => Ok z
      | None => Raise ValueError
      end
  | PList _ => Raise TypeError
  | PDict _ => Raise TypeError
  end.

(** [[int(n) for n in combo]]: left to right, the first exception wins. *)
Fixpoint int_all (combo : list pyval) : result (list Z) :=
  match combo with
  | [] => Ok []
  | n :: rest =>
      z ← py_int n;
      zs ← int_all rest;
      Ok (z :: zs)
  end.

Definition msg_not_list (i : nat) : string :=
  "Combination " +:+ pretty (i + 1)%nat +:+ " is not a valid list.".
Definition msg_non_integer (i : nat) : string :=
  "Combination " +:+ pretty (i + 1)%nat +:+ " contains non-integer values.".
Definition msg_invalid (i : nat) (msg : string) : string :=
  "Combination " +:+ pretty (i + 1)%nat +:+ ": " +:+ msg.
Definition msg_maximum : string :=
  "Maximum " +:+ pretty MAX_COMBINATIONS +:+ " combinations allowed.".
Definition msg_done (n : nat) : string :=
  "Draw generated! It does not match any of your " +:+ pretty n
    +:+ " unique combination(s).".

(** The validation loop [for i, combo in enumerate(combinations)]: either
    the response of the first [return] reached, or the list [validated]. *)
Fixpoint validate_all (i : nat) (combinations : list pyval)
    (validated : list (list Z)) : response + list (list Z) :=
  match combinations with
  | [] => inr validated
  | PList combo :: rest =>
      match int_all combo with
      | Raise ValueError | Raise TypeError =>
          inl (JsonError 400 (msg_non_integer i))
      | Raise e => inl (Unhandled e)
      | Ok numbers =>
          let '(valid, msg) := validate_combination (PInt <$> numbers) in
          if negb valid then inl (JsonError 400 (msg_invalid i msg))
          else validate_all (S i) rest (validated ++ [numbers])
      end
  | _ :: _ => inl (JsonError 400 (msg_not_list i))
  end.

(** [list({frozenset(c) for c in validated})]. *)
Definition dedup_sets (validated : list (list Z)) : list (gset Z) :=
  elements (list_to_set (frozenset <$> validated) : gset (gset Z)).

(** The handler up to the end of the validation loop: either the response
    it returns early with, or the list [validated]. *)
Definition validated_of (data : pyval) : response + list (list Z) :=
  if falsy data then inl (JsonError 400 "No combinations provided.") else
  match py_contains "combinations" data with
  | Raise e => inl (Unhandled e)
  | Ok false => inl (JsonError 400 "No combinations provided.")
  | Ok true =>
      match py_getitem data "combinations" with
      | Raise e => inl (Unhandled e)
      | Ok (PList combinations) =>
          if bool_decide (length combinations = 0%nat)
          then inl (JsonError 400 "Please provide at least one combination.")
          else if (MAX_COMBINATIONS <? length combinations)%nat
          then inl (JsonError 400 msg_maximum)
          else validate_all 0 combinations []
      | Ok _ => inl (JsonError 400 "Please provide at least one combination.")
      end
  end.

Section Handler.
Context {rng : Type}.
Variable sample : rng → list Z → nat → list Z * rng.

(** The handler from the deduplication on. *)
Definition respond (validated : list (list Z)) (g : rng) : response * rng :=
  let unique_combinations := dedup_sets validated in
  match generate_unique_draw sample unique_combinations g with
  | (Raise (RuntimeError msg), g') => (JsonError 500 msg, g')
  | (Raise e, g') => (Unhandled e, g')
  | (Ok result, g') =>
      let draw_set := frozenset result in
      let hit_report := analyse_hits validated draw_set in
      (JsonOk {| Resp.draw := result;
                 Resp.combinations_submitted := length validated;
                 Resp.unique_combinations := length unique_combinations;
                 Resp.message := msg_done (length unique_combinations);
                 Resp.hit_report := hit_report |}, g')
  end.

(** [draw()], on the parsed request body [data]. *)
Definition draw (data : pyval) (g : rng) : response * rng :=
  match validated_of data with
  | inl r => (r, g)
  | inr validated => respond validated g
  end.
End Handler.

(** * The vocabulary of the properties *)

Definition in_range (z : Z) : Prop := LOTTO_MIN ≤ z ≤ LOTTO_MAX.

(** The shape a combination must have: 7 numbers of the range, no repeat. *)
Definition well_formed (c : list Z) : Prop :=
  length c = NUMBERS_PER_COMBINATION ∧ Forall in_range c ∧ NoDup c.

(** What the handler passes on as validated: the lists that
    [validate_combination] accepts. *)
Definition all_valid (combinations : list (list Z)) : Prop :=
  Forall (λ c, validate_combination (PInt <$> c) = (true, ""%string))
    combinations.

Section GeneratorRuns.
Context {rng : Type}.
Variable sample : rng → list Z → nat → list Z * rng.

(** The sample an attempt draws in state [g], and the state it leaves. *)
Definition attempt (g : rng) : list Z :=
  (sample g population NUMBERS_PER_COMBINATION).1.
Definition next_state (g : rng) : rng :=
  (sample g population NUMBERS_PER_COMBINATION).2.
(** The sample of attempt number [k] (from 0) of a run started in [g]. *)
Definition nth_attempt (g : rng) (k : nat) : list Z :=
  attempt (Nat.iter k next_state g).

(** The contract of [random.sample]: [k] distinct draws from a population
    without repeats. *)
Definition sample_contract : Prop :=
  ∀ g pop k, NoDup pop → (k ≤ length pop)%nat →
    length (sample g pop k).1 = k ∧
    NoDup (sample g pop k).1 ∧
    (sample g pop k).1 ⊆ pop.

End GeneratorRuns.

(** The number of hits of one combination, the record the loop appends for
    it, and the list [details] as the loop leaves it (before the sort). *)
Definition hits_of (draw_set : gset Z) (combo : list Z) : nat :=
  size (frozenset combo ∩ draw_set).

Definition detail_of (draw_set : gset Z) (i : nat) (combo : list Z)
  : hit_detail :=
  {| index := i + 1;
     combination := sorted combo;
     hits := hits_of draw_set combo;
     hit_numbers := sorted (elements (frozenset combo ∩ draw_set));
     miss_numbers := sorted (elements (frozenset combo ∖ draw_set)) |}.

Fixpoint appended (draw_set : gset Z) (i : nat) (combinations : list (list Z))
  : list hit_detail :=
  match combinations with
  | [] => []
  | combo :: rest =>
      (if (4 <=? hits_of draw_set combo)%nat
       then [detail_of draw_set i combo] else [])
        ++ appended draw_set (S i) rest
  end.

(** How many of the combinations have exactly [h] hits. *)
Definition count_hits (draw_set : gset Z) (h : nat)
    (combinations : list (list Z)) : nat :=
  length (filter (λ combo, hits_of draw_set combo = h) combinations).

Definition summary_of (a b c : nat) : gmap nat nat :=
  {[ 4%nat := a; 5%nat := b; 6%nat := c ]}.

Section Order.
Context {A : Type} (key : A → nat) (before : relation A).

(** Larger key first; among equal keys, the order [before]. *)
Definition desc_then : relation A :=
  λ x y, (key y < key x)%nat ∨ (key x = key y ∧ before x y).

End Order.

(** "The same numbers regardless of order", read on the lists. *)
Definition same_value_set (c1 c2 : list Z) : bool :=
  forallb (λ z, bool_decide (z ∈ c2)) c1 && forallb (λ z, bool_decide (z ∈ c1)) c2.

(** The number of distinct value-sets among the combinations: each
    combination counts unless a later one has the same value-set. *)
Fixpoint distinct_value_sets (combinations : list (list Z)) : nat :=
  match combinations with
  | [] => 0
  | c :: rest =>
      ((if existsb (same_value_set c) rest then 0 else 1)
       + distinct_value_sets rest)%nat
  end.

(** A request body whose field [combinations] holds the list [batch]. *)
Definition carries (data : pyval) (batch : list pyval) : Prop :=
  ∃ items, data = PDict items ∧
           dict_get "combinations" items = Some (PList batch).

(** A batch entry that is a list whose elements [int] turns into [c]. *)
Definition coerces_to (x : pyval) (c : list Z) : Prop :=
  ∃ elems, x = PList elems ∧ int_all elems = Ok c.

(** The entries of a batch that the validation loop lets through, with the
    lists it appends to [validated] for them. *)
Definition accepted (batch : list pyval) (validated : list (list Z)) : Prop :=
  Forall2 (λ x c, coerces_to x c ∧ well_formed c) batch validated.

(** The numbers of a list of [int] (or [bool]) values. *)
Definition ints_of (numbers : list pyval) (cs : list Z) : Prop :=
  Forall2 (λ v z, as_int v = Some z) numbers cs.

(** The elements of a combination that pass all three checks of the loop
    of [validate_combination]. *)
Definition passes (cs : list Z) : Prop := Forall in_range cs ∧ NoDup cs.

(** The check that the element [x] fails, and its message [m], when the
    numbers [cs] before it passed and the set [seen] was there at the
    start. *)
Definition fails_with (seen : gset Z) (cs : list Z) (x : pyval) (m : string)
  : Prop :=
  match as_int x with
  | None => m = msg_integers
  | Some z =>
      (¬ in_range z ∧ m = msg_range) ∨
      (in_range z ∧ (z ∈ seen ∨ z ∈ cs) ∧ m = msg_unique)
  end.

(** ** A scripted random source

    A deterministic stand-in for the [random] module: the state is the list
    of samples still to be handed out.  An entry that is not a sample of the
    population (wrong size, a repeated or a foreign element) is replaced by
    the first [k] elements of the population, as is every sample once the
    script has run out. *)
Definition is_sample (pop : list Z) (k : nat) (s : list Z) : bool :=
  bool_decide (length s = k ∧ NoDup s ∧ s ⊆ pop).

Definition scripted_sample (g : list (list Z)) (pop : list Z) (k : nat)
  : list Z * list (list Z) :=
  match g with
  | s :: g' => (if is_sample pop k s then s else take k pop, g')
  | [] => (take k pop, [])
  end.

Definition body_of (data : list (list Z)) : pyval :=
  PDict [("combinations"%string, PList ((λ c, PList (PInt <$> c)) <$> data))].

(** * Properties *)

(** ** The validator *)

Lemma validate_loop_valid_msg seen numbers :
  (validate_loop seen numbers).1 = true →
  validate_loop seen numbers = (true, ""%string).
Proof.
  revert seen. induction numbers as [|n rest IH]; intros seen; simpl; [done|].
  destruct (as_int n) as [z|]; [|done].
  destruct (negb _); [done|].
  case_bool_decide; [done|]. apply IH.
Qed.

Lemma validate_loop_ints seen (c : list Z) :
  validate_loop seen (PInt <$> c) = (true, ""%string) ↔
  Forall in_range c ∧ NoDup c ∧ (∀ z, z ∈ c → z ∉ seen).
Proof.
  revert seen. induction c as [|z c IH]; intros seen; simpl.
  - split; [intros _|done].
    split_and!; [constructor | constructor | intros z Hz; inversion Hz].
  - destruct (LOTTO_MIN <=? z) eqn:Hlo; simpl.
    2:{ split; [done|]. intros (Hr & _). inversion_clear Hr as [|?? [??] ?].
        apply Z.leb_gt in Hlo. lia. }
    destruct (z <=? LOTTO_MAX) eqn:Hhi; simpl.
    2:{ split; [done|]. intros (Hr & _). inversion_clear Hr as [|?? [??] ?].
        apply Z.leb_gt in Hhi. lia. }
    apply Z.leb_le in Hlo, Hhi.
    case_bool_decide as Hseen.
    { split; [done|]. intros (_ & _ & Hfresh).
      destruct (Hfresh z); [left|done]. }
    rewrite IH. split.
    + intros (Hr & Hnd & Hfresh). split_and!.
      * constructor; [done|done].
      * constructor; [|done]. intros Hin. apply (Hfresh z Hin). set_solver.
      * intros y Hy. apply elem_of_cons in Hy as [->|Hy]; [done|].
        specialize (Hfresh y Hy). set_solver.
    + intros (Hr & Hnd & Hfresh).
      apply Forall_cons in Hr as [_ Hr]. apply NoDup_cons in Hnd as [Hz Hnd].
      split_and!; [done|done|]. intros y Hy.
      assert (y ∉ seen) by (apply Hfresh; by right).
      assert (y ≠ z) by (intros ->; done). set_solver.
Qed.

Lemma validate_combination_valid_msg numbers :
  (validate_combination numbers).1 = true →
  validate_combination numbers = (true, ""%string).
Proof.
  unfold validate_combination. destruct (negb _); [done|].
  apply validate_loop_valid_msg.
Qed.

Lemma validate_combination_ints (c : list Z) :
  validate_combination (PInt <$> c) = (true, ""%string) ↔ well_formed c.
Proof.
  unfold validate_combination, well_formed. rewrite length_fmap.
  destruct (length c =? NUMBERS_PER_COMBINATION)%nat eqn:Hlen; simpl.
  - apply Nat.eqb_eq in Hlen. rewrite validate_loop_ints.
    split.
    + intros (? & ? & _). done.
    + intros (_ & ? & ?). split_and!; [done|done|]. intros z _. set_solver.
  - apply Nat.eqb_neq in Hlen. split; [done|]. intros (? & _). done.
Qed.

(** C2.  On a list of integers [validate_combination] answers
    [(True, "")] exactly when the list has 7 elements, each of them lies in
    [1,36], and no two of them are equal. *)
Theorem validate_combination_iff (c : list Z) :
  validate_combination (PInt <$> c) = (true, ""%string) ↔
  length c = 7%nat ∧ Forall (λ z, 1 ≤ z ≤ 36) c ∧ NoDup c.
Proof. apply validate_combination_ints. Qed.

(** Whatever its elements are, a list whose length is not 7 is answered
    with the length message. *)
Lemma validate_combination_length (numbers : list pyval) :
  length numbers ≠ NUMBERS_PER_COMBINATION →
  validate_combination numbers = (false, msg_length).
Proof.
  intros Hlen. unfold validate_combination.
  by apply Nat.eqb_neq in Hlen as ->.
Qed.

Lemma validate_combination_well_formed (c : list Z) :
  (validate_combination (PInt <$> c)).1 = true ↔ well_formed c.
Proof.
  split.
  - intros H%validate_combination_valid_msg. by apply validate_combination_ints.
  - intros H. apply validate_combination_ints in H. by rewrite H.
Qed.

(** ** Sorting *)

Lemma sorted_Permutation xs : sorted xs ≡ₚ xs.
Proof. apply merge_sort_Permutation. Qed.

Lemma sorted_StronglySorted xs : StronglySorted Z.le (sorted xs).
Proof. apply (StronglySorted_merge_sort _). Qed.

Lemma sorted_length xs : length (sorted xs) = length xs.
Proof. by rewrite sorted_Permutation. Qed.

Lemma sorted_NoDup xs : NoDup xs → NoDup (sorted xs).
Proof. by rewrite sorted_Permutation. Qed.

Lemma sorted_frozenset xs : frozenset (sorted xs) = frozenset xs.
Proof. apply list_to_set_perm_L, sorted_Permutation. Qed.

Lemma StronglySorted_le_lt (xs : list Z) :
  StronglySorted Z.le xs → NoDup xs → StronglySorted Z.lt xs.
Proof.
  induction 1 as [|x xs Hs IH Hall]; intros Hnd; constructor.
  - apply IH. by apply NoDup_cons in Hnd as [_ ?].
  - apply NoDup_cons in Hnd as [Hx _].
    rewrite Forall_forall in Hall. apply Forall_forall. intros y Hy.
    assert (x ≠ y) by (intros ->; done). specialize (Hall y Hy). lia.
Qed.

Lemma sorted_elements_length (X : gset Z) :
  length (sorted (elements X)) = size X.
Proof. by rewrite sorted_length. Qed.

Lemma sorted_elements_frozenset (X : gset Z) :
  frozenset (sorted (elements X)) = X.
Proof. rewrite sorted_frozenset. apply list_to_set_elements_L. Qed.

(** ** The draw generator *)

Lemma population_NoDup : NoDup population.
Proof. apply NoDup_seqZ. Qed.

Lemma population_length : length population = 36%nat.
Proof. reflexivity. Qed.

Lemma elem_of_population z : z ∈ population ↔ in_range z.
Proof.
  unfold population, range, in_range, LOTTO_MIN, LOTTO_MAX.
  rewrite elem_of_seqZ. lia.
Qed.

Section GeneratorProps.
Context {rng : Type}.
Variable sample : rng → list Z → nat → list Z * rng.

Lemma nth_attempt_S g k : nth_attempt sample g (S k) = nth_attempt sample (next_state sample g) k.
Proof. unfold nth_attempt. by rewrite Nat.iter_succ_r. Qed.

Lemma attempts_Ok n F g D g' :
  attempts sample n F g = (Ok D, g') →
  ∃ k, (k < n)%nat ∧ D = sorted (nth_attempt sample g k) ∧
       frozenset (nth_attempt sample g k) ∉ F.
Proof.
  revert g. induction n as [|n IH]; intros g; simpl; [done|].
  destruct (sample g population NUMBERS_PER_COMBINATION) as [d g1] eqn:Hs.
  case_bool_decide as Hin.
  - intros [= <- <-]. exists 0%nat. unfold nth_attempt, attempt; simpl.
    rewrite Hs. split_and!; [lia|done|done].
  - intros (k & Hk & HD & Hout)%IH. exists (Datatypes.S k).
    rewrite nth_attempt_S. unfold next_state. rewrite Hs.
    split_and!; [lia|done|done].
Qed.

Lemma attempts_Raise n F g :
  (∃ g', attempts sample n F g = (Raise (RuntimeError msg_exhausted), g')) ↔
  ∀ k, (k < n)%nat → frozenset (nth_attempt sample g k) ∈ F.
Proof.
  revert g. induction n as [|n IH]; intros g; simpl.
  { split; [intros _ k ?; lia | intros _; by eexists]. }
  destruct (sample g population NUMBERS_PER_COMBINATION) as [d g1] eqn:Hs.
  assert (nth_attempt sample g 0 = d) as H0.
  { unfold nth_attempt, attempt; simpl. by rewrite Hs. }
  assert (∀ k, nth_attempt sample g (S k) = nth_attempt sample g1 k) as HS.
  { intros k. rewrite nth_attempt_S. unfold next_state. by rewrite Hs. }
  case_bool_decide as Hin.
  - split; [intros [? [=]]|]. intros Hall.
    specialize (Hall 0%nat ltac:(lia)). by rewrite H0 in Hall.
  - rewrite IH. split.
    + intros Hall [|k] ?; [by rewrite H0|]. rewrite HS. apply Hall. lia.
    + intros Hall k ?. rewrite <-HS. apply Hall. lia.
Qed.

Lemma attempts_Raise_inv n F g e g' :
  attempts sample n F g = (Raise e, g') → e = RuntimeError msg_exhausted.
Proof.
  revert g. induction n as [|n IH]; intros g; simpl; [by intros [= <- _]|].
  destruct (sample g population NUMBERS_PER_COMBINATION) as [d g1].
  case_bool_decide; [done|]. apply IH.
Qed.

Lemma attempt_well_formed g :
  sample_contract sample → well_formed (attempt sample g).
Proof.
  intros Hc.
  destruct (Hc g population NUMBERS_PER_COMBINATION) as (Hlen & Hnd & Hsub).
  { apply population_NoDup. }
  { rewrite population_length. unfold NUMBERS_PER_COMBINATION. lia. }
  split_and!; [done| |done].
  apply Forall_forall. intros z Hz. by apply elem_of_population, Hsub.
Qed.
End GeneratorProps.

Lemma max_attempts_lt (k : nat) :
  (k < max_attempts)%nat ↔ Z.of_nat k < 10000.
Proof. unfold max_attempts. lia. Qed.

Lemma scripted_sample_contract : sample_contract scripted_sample.
Proof.
  intros g pop k Hnd Hk.
  assert (length (take k pop) = k ∧ NoDup (take k pop) ∧ take k pop ⊆ pop)
    as Hdefault.
  { split_and!.
    - rewrite length_take. lia.
    - eapply sublist_NoDup; [done|apply sublist_take].
    - apply sublist_subseteq, sublist_take. }
  destruct g as [|s g']; simpl; [done|].
  unfold is_sample. by case_bool_decide.
Qed.

Lemma generate_unique_draw_Ok {rng : Type}
    (sample : rng → list Z → nat → list Z * rng)
    (F : list (gset Z)) (g : rng) (D : list Z) (g' : rng) :
  sample_contract sample →
  generate_unique_draw sample F g = (Ok D, g') →
  ∃ s, well_formed s ∧ D = sorted s ∧ frozenset s ∉ F.
Proof.
  intros Hc (k & _ & -> & Hout)%attempts_Ok.
  exists (nth_attempt sample g k). split_and!; [|done|].
  - by apply attempt_well_formed.
  - by rewrite elem_of_list_to_set in Hout.
Qed.

Lemma sorted_well_formed s :
  well_formed s → well_formed (sorted s) ∧ StronglySorted Z.lt (sorted s).
Proof.
  intros (Hlen & Hr & Hnd). split; [split_and!|].
  - by rewrite sorted_length.
  - by rewrite sorted_Permutation.
  - by apply sorted_NoDup.
  - apply StronglySorted_le_lt; [apply sorted_StronglySorted|].
    by apply sorted_NoDup.
Qed.

(** C1.  Whenever [generate_unique_draw] returns a draw, for any list of
    forbidden value-sets and any random source honouring the contract of
    [random.sample], the draw's value-set is none of the forbidden ones, and
    the draw is a list of 7 distinct numbers of [1,36] in ascending order. *)
Theorem generate_unique_draw_spec {rng : Type}
    (sample : rng → list Z → nat → list Z * rng)
    (F : list (gset Z)) (g : rng) (D : list Z) (g' : rng) :
  sample_contract sample →
  generate_unique_draw sample F g = (Ok D, g') →
  (frozenset D ∉ F) ∧
  length D = 7%nat ∧ NoDup D ∧ Forall (λ z, 1 ≤ z ≤ 36) D ∧
  StronglySorted Z.lt D.
Proof.
  intros Hc (s & Hwf & -> & Hout)%generate_unique_draw_Ok; [|done].
  destruct (sorted_well_formed s Hwf) as ((Hlen & Hr & Hnd) & Hs).
  split_and!; [|done..]. by rewrite sorted_frozenset.
Qed.

Lemma generate_unique_draw_spec_witness :
  let F : list (gset Z) := [frozenset [1; 2; 3; 4; 5; 6; 7]] in
  let g := [[7; 6; 5; 4; 3; 2; 1]; [36; 2; 9; 4; 30; 6; 1]; [1; 2; 3; 4; 5; 6; 8]] in
  let D := [1; 2; 4; 6; 9; 30; 36] in
  generate_unique_draw scripted_sample F g = (Ok D, [[1; 2; 3; 4; 5; 6; 8]]) ∧
  (frozenset D ∉ F) ∧
  length D = 7%nat ∧ NoDup D ∧ Forall (λ z, 1 ≤ z ≤ 36) D ∧
  StronglySorted Z.lt D.
Proof.
  split; [vm_compute; reflexivity|].
  apply (generate_unique_draw_spec scripted_sample
           [frozenset [1; 2; 3; 4; 5; 6; 7]]
           [[7; 6; 5; 4; 3; 2; 1]; [36; 2; 9; 4; 30; 6; 1]; [1; 2; 3; 4; 5; 6; 8]]
           [1; 2; 4; 6; 9; 30; 36] [[1; 2; 3; 4; 5; 6; 8]]
           scripted_sample_contract).
  vm_compute; reflexivity.
Defined.

Lemma respond_Raise {rng : Type} (sample : rng → list Z → nat → list Z * rng)
    validated g e g' :
  generate_unique_draw sample (dedup_sets validated) g = (Raise e, g') →
  respond sample validated g = (JsonError 500 msg_exhausted, g').
Proof.
  intros Hgen. unfold respond. rewrite Hgen.
  by apply attempts_Raise_inv in Hgen as ->.
Qed.

Lemma validate_all_status i combinations validated status msg :
  validate_all i combinations validated = inl (JsonError status msg) →
  status = 400%nat.
Proof.
  revert i validated.
  induction combinations as [|combo rest IH]; intros i validated; [done|].
  simpl. destruct combo; try by intros [= <- _].
  destruct (int_all l) as [numbers|[]]; try by intros [= <- _].
  destruct (validate_combination _) as [[] msg']; simpl.
  - apply IH.
  - by intros [= <- _].
Qed.

Lemma validated_of_status data status msg :
  validated_of data = inl (JsonError status msg) → status = 400%nat.
Proof.
  unfold validated_of. destruct (falsy data); [by intros [= <- _]|].
  destruct (py_contains _ _) as [[]|]; [|by intros [= <- _]|done].
  destruct (py_getitem _ _) as [v|]; [|done].
  destruct v; try by intros [= <- _].
  case_bool_decide; [by intros [= <- _]|].
  destruct (_ <? _)%nat; [by intros [= <- _]|].
  apply validate_all_status.
Qed.

(** C4.  [generate_unique_draw] raises exactly when each of its 10,000
    attempts samples a value-set of the forbidden ones, and it raises
    nothing but the [RuntimeError] with the exhaustion message.  When it
    raises, the handler answers with the status 500 and that message alone,
    while every error response of the input validation has status 400. *)
Theorem generation_failure {rng : Type}
    (sample : rng → list Z → nat → list Z * rng) :
  (∀ (F : list (gset Z)) (g : rng),
     (∃ g', generate_unique_draw sample F g
            = (Raise (RuntimeError msg_exhausted), g')) ↔
     (∀ k : nat, Z.of_nat k < 10000 → frozenset (nth_attempt sample g k) ∈ F)) ∧
  (∀ (F : list (gset Z)) (g : rng) e g',
     generate_unique_draw sample F g = (Raise e, g') →
     e = RuntimeError msg_exhausted) ∧
  (∀ data validated (g : rng) e g',
     validated_of data = inr validated →
     generate_unique_draw sample (dedup_sets validated) g = (Raise e, g') →
     draw sample data g = (JsonError 500 msg_exhausted, g')) ∧
  (∀ data status msg (g : rng),
     validated_of data = inl (JsonError status msg) →
     draw sample data g = (JsonError status msg, g) ∧ status = 400%nat).
Proof.
  split_and!.
  - intros F g. unfold generate_unique_draw. rewrite attempts_Raise.
    split; intros H k Hk.
    + apply (elem_of_list_to_set (C:=gset (gset Z))).
      by apply H, max_attempts_lt.
    + apply (elem_of_list_to_set (C:=gset (gset Z))).
      by apply H, max_attempts_lt.
  - intros F g e g'. apply attempts_Raise_inv.
  - intros data validated g e g' Hv Hgen. unfold draw. rewrite Hv.
    by eapply respond_Raise.
  - intros data status msg g Hv. unfold draw. rewrite Hv.
    split; [done|]. by eapply validated_of_status.
Qed.

(** ** The hit analyser *)

Lemma summary_of_lookup a b c h :
  summary_of a b c !! h =
    if decide (h = 4%nat) then Some a
    else if decide (h = 5%nat) then Some b
    else if decide (h = 6%nat) then Some c else None.
Proof. unfold summary_of. repeat case_decide; by simplify_map_eq. Qed.

Lemma summary_of_incr a b c h :
  match summary_of a b c !! h with
  | Some n => <[h := (n + 1)%nat]> (summary_of a b c)
  | None => summary_of a b c
  end =
  summary_of (a + if decide (h = 4%nat) then 1 else 0)
             (b + if decide (h = 5%nat) then 1 else 0)
             (c + if decide (h = 6%nat) then 1 else 0).
Proof.
  rewrite summary_of_lookup.
  repeat case_decide; subst; rewrite ?Nat.add_0_r; try done;
    apply map_eq; intros k; rewrite ?lookup_insert, !summary_of_lookup;
    repeat case_decide; subst; done.
Qed.

Lemma sum_values_summary_of a b c : sum_values (summary_of a b c) = (a + b + c)%nat.
Proof.
  unfold sum_values, summary_of.
  rewrite !map_to_list_insert, map_to_list_singleton by by simplify_map_eq.
  simpl. lia.
Qed.

Lemma count_hits_cons ds h combo rest :
  count_hits ds h (combo :: rest) =
  ((if decide (hits_of ds combo = h) then 1 else 0) + count_hits ds h rest)%nat.
Proof.
  unfold count_hits. rewrite filter_cons. by case_decide.
Qed.

Lemma analyse_loop_spec ds combinations i a b c details :
  analyse_loop ds i combinations (summary_of a b c, details) =
  (summary_of (a + count_hits ds 4 combinations)
              (b + count_hits ds 5 combinations)
              (c + count_hits ds 6 combinations),
   details ++ appended ds i combinations).
Proof.
  revert i a b c details.
  induction combinations as [|combo rest IH]; intros i a b c details.
  { simpl. unfold count_hits. simpl. by rewrite !Nat.add_0_r, app_nil_r. }
  cbn [analyse_loop analyse_step]. fold (hits_of ds combo).
  rewrite summary_of_incr, IH, !count_hits_cons. f_equal.
  - f_equal; lia.
  - cbn [appended]. fold (detail_of ds i combo).
    destruct (4 <=? hits_of ds combo)%nat; by rewrite <-?app_assoc.
Qed.

Lemma analyse_hits_eq combinations ds :
  analyse_hits combinations ds =
  {| six_hits := count_hits ds 6 combinations;
     five_hits := count_hits ds 5 combinations;
     four_hits := count_hits ds 4 combinations;
     total_with_hits :=
       (count_hits ds 4 combinations + count_hits ds 5 combinations
        + count_hits ds 6 combinations)%nat;
     details := sort_desc hits (appended ds 0 combinations) |}.
Proof.
  unfold analyse_hits. fold (summary_of 0 0 0).
  rewrite analyse_loop_spec. simpl.
  rewrite sum_values_summary_of.
  unfold lookup_total, map_lookup_total. rewrite !summary_of_lookup. done.
Qed.

(** *** The stable descending sort *)

Section StableSortProps.
Context {A : Type} (key : A → nat) (before : relation A).

Lemma insert_desc_Permutation x l : insert_desc key x l ≡ₚ x :: l.
Proof.
  induction l as [|y l IH]; simpl; [done|].
  destruct (key x <? key y)%nat; [|done].
  rewrite IH. apply Permutation_swap.
Qed.

Lemma sort_desc_Permutation l : sort_desc key l ≡ₚ l.
Proof.
  induction l as [|x l IH]; simpl; [done|].
  by rewrite insert_desc_Permutation, IH.
Qed.

Lemma insert_desc_sorted x l :
  StronglySorted (desc_then key before) l → Forall (before x) l →
  StronglySorted (desc_then key before) (insert_desc key x l).
Proof.
  induction 1 as [|y l Hs IH Hall]; intros Hx; simpl.
  { repeat constructor. }
  apply Forall_cons in Hx as [Hxy Hx].
  destruct (key x <? key y)%nat eqn:Hlt.
  - apply Nat.ltb_lt in Hlt. constructor; [by apply IH|].
    rewrite insert_desc_Permutation. constructor; [|done]. by left.
  - apply Nat.ltb_ge in Hlt. constructor; [by constructor|].
    assert (desc_then key before x y) as Hdxy.
    { destruct (decide (key x = key y)); [by right|left; lia]. }
    constructor; [done|].
    rewrite Forall_forall in Hall, Hx. apply Forall_forall. intros z Hz.
    destruct (Hall z Hz) as [?|[? _]].
    + left. lia.
    + destruct (decide (key x = key z)); [right|left; lia].
      split; [done|]. by apply Hx.
Qed.

Lemma sort_desc_sorted l :
  StronglySorted before l → StronglySorted (desc_then key before) (sort_desc key l).
Proof.
  induction 1 as [|x l Hs IH Hall]; simpl; [constructor|].
  apply insert_desc_sorted; [done|]. by rewrite sort_desc_Permutation.
Qed.
End StableSortProps.

(** *** The records of the loop *)

Lemma elem_of_appended ds i combinations d :
  d ∈ appended ds i combinations ↔
  ∃ j combo, combinations !! j = Some combo ∧
             (4 ≤ hits_of ds combo)%nat ∧ d = detail_of ds (i + j) combo.
Proof.
  revert i. induction combinations as [|c rest IH]; intros i; cbn [appended].
  { split; [by intros ?%elem_of_nil|by intros (? & ? & ? & _)]. }
  rewrite elem_of_app, IH. split.
  - intros [Hd|(j & combo & Hj & Hh & ->)].
    + destruct (4 <=? hits_of ds c)%nat eqn:Hh; [|by apply elem_of_nil in Hd].
      apply list_elem_of_singleton in Hd as ->. apply Nat.leb_le in Hh.
      exists 0%nat, c. by rewrite Nat.add_0_r.
    + exists (S j), combo. split_and!; [done|done|]. f_equal. lia.
  - intros ([|j] & combo & Hj & Hh & ->); cbn in Hj.
    + injection Hj as ->. left. apply Nat.leb_le in Hh as ->.
      rewrite Nat.add_0_r. apply list_elem_of_singleton. done.
    + right. exists j, combo. split_and!; [done|done|]. f_equal. lia.
Qed.

Lemma appended_sorted ds i combinations :
  StronglySorted (λ x y, (index x < index y)%nat) (appended ds i combinations) ∧
  Forall (λ x, (i < index x)%nat) (appended ds i combinations).
Proof.
  revert i. induction combinations as [|c rest IH]; intros i; cbn [appended].
  { split; constructor. }
  destruct (IH (S i)) as [Hs Hall].
  assert (Forall (λ x, (i + 1 < index x)%nat) (appended ds (S i) rest)) as Hall'.
  { eapply Forall_impl; [done|]. simpl. intros; lia. }
  destruct (4 <=? hits_of ds c)%nat; cbn [app].
  - split; constructor; [done|done|simpl; lia|].
    eapply Forall_impl; [done|]. simpl. intros; lia.
  - split; [done|]. eapply Forall_impl; [done|]. simpl. intros; lia.
Qed.

Lemma appended_length ds i combinations :
  length (appended ds i combinations) =
  length (filter (λ combo, (4 ≤ hits_of ds combo)%nat) combinations).
Proof.
  revert i. induction combinations as [|c rest IH]; intros i; cbn [appended]; [done|].
  rewrite length_app, IH, filter_cons.
  destruct (4 <=? hits_of ds c)%nat eqn:Hh.
  - apply Nat.leb_le in Hh. by rewrite decide_True.
  - apply Nat.leb_gt in Hh. rewrite decide_False by lia. done.
Qed.

Lemma StronglySorted_lookup_lt {A} (R : relation A) (l : list A) p q x y :
  StronglySorted R l → l !! p = Some x → l !! q = Some y → (p < q)%nat →
  R x y.
Proof.
  intros Hs. revert p q. induction Hs as [|z l Hs IH Hall]; intros p q; [done|].
  destruct p as [|p], q as [|q]; simpl; try lia.
  - intros [= ->] Hy _. rewrite Forall_forall in Hall.
    apply Hall. by eapply list_elem_of_lookup_2.
  - intros Hx Hy Hpq. apply (IH p q); [done|done|lia].
Qed.

Lemma details_sorted combinations ds :
  StronglySorted (desc_then hits (λ x y, (index x < index y)%nat))
    (details (analyse_hits combinations ds)).
Proof.
  rewrite analyse_hits_eq. simpl.
  apply sort_desc_sorted, appended_sorted.
Qed.

Lemma elem_of_details combinations ds d :
  d ∈ details (analyse_hits combinations ds) ↔
  ∃ j combo, combinations !! j = Some combo ∧
             (4 ≤ hits_of ds combo)%nat ∧ d = detail_of ds j combo.
Proof.
  rewrite analyse_hits_eq. simpl.
  rewrite sort_desc_Permutation. apply elem_of_appended.
Qed.

(** C8.  In the list [details] that [analyse_hits] returns, a record that
    comes before another has at least as many hits, and when the two have
    equally many, the smaller 1-based index: the sort is by descending hit
    count and keeps the submission order among ties. *)
Theorem details_order (combinations : list (list Z)) (ds : gset Z)
    (p q : nat) (x y : hit_detail) :
  details (analyse_hits combinations ds) !! p = Some x →
  details (analyse_hits combinations ds) !! q = Some y →
  (p < q)%nat →
  (hits y ≤ hits x)%nat ∧ (hits x = hits y → (index x < index y)%nat).
Proof.
  intros Hx Hy Hpq.
  destruct (StronglySorted_lookup_lt _ _ p q x y
              (details_sorted combinations ds) Hx Hy Hpq) as [?|[? ?]].
  - split; lia.
  - split; [lia|done].
Qed.

Lemma details_order_witness :
  let combinations :=
    [[1; 2; 3; 4; 20; 21; 22]; [1; 2; 3; 4; 5; 6; 30]; [7; 6; 5; 4; 31; 32; 33];
     [10; 11; 12; 13; 14; 15; 16]; [1; 2; 3; 4; 5; 7; 36]] in
  let ds := frozenset [1; 2; 3; 4; 5; 6; 7] in
  let x := detail_of ds 0 [1; 2; 3; 4; 20; 21; 22] in
  let y := detail_of ds 2 [7; 6; 5; 4; 31; 32; 33] in
  index <$> details (analyse_hits combinations ds) = [2; 5; 1; 3]%nat ∧
  hits <$> details (analyse_hits combinations ds) = [6; 6; 4; 4]%nat ∧
  details (analyse_hits combinations ds) !! 2%nat = Some x ∧
  details (analyse_hits combinations ds) !! 3%nat = Some y ∧
  (hits y ≤ hits x)%nat ∧ (hits x = hits y → (index x < index y)%nat).
Proof.
  do 4 (split; [vm_compute; reflexivity|]).
  apply (details_order
           [[1; 2; 3; 4; 20; 21; 22]; [1; 2; 3; 4; 5; 6; 30];
            [7; 6; 5; 4; 31; 32; 33]; [10; 11; 12; 13; 14; 15; 16];
            [1; 2; 3; 4; 5; 7; 36]]
           (frozenset [1; 2; 3; 4; 5; 6; 7]) 2 3);
    [vm_compute; reflexivity | vm_compute; reflexivity | lia].
Defined.

(** *** One record *)

Lemma hit_miss_union (X Y : gset Z) : (X ∩ Y) ∪ (X ∖ Y) = X.
Proof.
  apply set_eq. intros z.
  rewrite elem_of_union, elem_of_intersection, elem_of_difference.
  destruct (decide (z ∈ Y)); naive_solver.
Qed.

Lemma sorted_elements_lt (X : gset Z) : StronglySorted Z.lt (sorted (elements X)).
Proof.
  apply StronglySorted_le_lt; [apply sorted_StronglySorted|].
  apply sorted_NoDup, NoDup_elements.
Qed.

Lemma elem_of_sorted_elements (X : gset Z) z : z ∈ sorted (elements X) ↔ z ∈ X.
Proof. by rewrite sorted_Permutation, elem_of_elements. Qed.

Lemma well_formed_size c : well_formed c → size (frozenset c) = 7%nat.
Proof.
  intros (Hlen & _ & Hnd). unfold frozenset.
  by rewrite size_list_to_set.
Qed.

Lemma detail_of_consistent ds i combo :
  let d := detail_of ds i combo in
  hits d = length (hit_numbers d) ∧
  StronglySorted Z.lt (hit_numbers d) ∧
  StronglySorted Z.lt (miss_numbers d) ∧
  (∀ z, z ∈ hit_numbers d → z ∉ miss_numbers d) ∧
  frozenset (hit_numbers d) ∪ frozenset (miss_numbers d)
    = frozenset (combination d) ∧
  frozenset (combination d) = frozenset combo ∧
  (length (hit_numbers d) + length (miss_numbers d))%nat
    = size (frozenset combo).
Proof.
  simpl. split_and!.
  - by rewrite sorted_elements_length.
  - apply sorted_elements_lt.
  - apply sorted_elements_lt.
  - intros z. rewrite !elem_of_sorted_elements. set_solver.
  - rewrite !sorted_elements_frozenset, sorted_frozenset. apply hit_miss_union.
  - apply sorted_frozenset.
  - rewrite !sorted_elements_length.
    rewrite <-size_union by set_solver. by rewrite hit_miss_union.
Qed.

Lemma all_valid_well_formed combinations c :
  all_valid combinations → c ∈ combinations → well_formed c.
Proof.
  unfold all_valid. rewrite Forall_forall. intros Hall Hc.
  by apply validate_combination_ints, Hall.
Qed.

(** C9.  Every record of [details], for validated combinations: it belongs
    to the combination at its index; [hits] is the length of [hit_numbers];
    [hit_numbers] and [miss_numbers] are sorted, share no number, and
    together make up the value-set of the combination; and their lengths
    add up to 7. *)
Theorem detail_consistent (combinations : list (list Z)) (ds : gset Z)
    (d : hit_detail) :
  all_valid combinations →
  d ∈ details (analyse_hits combinations ds) →
  (∃ combo, combinations !! (index d - 1)%nat = Some combo ∧
            combination d = sorted combo) ∧
  hits d = length (hit_numbers d) ∧
  StronglySorted Z.lt (hit_numbers d) ∧
  StronglySorted Z.lt (miss_numbers d) ∧
  (∀ z, z ∈ hit_numbers d → z ∉ miss_numbers d) ∧
  frozenset (hit_numbers d) ∪ frozenset (miss_numbers d)
    = frozenset (combination d) ∧
  (length (hit_numbers d) + length (miss_numbers d))%nat = 7%nat.
Proof.
  intros Hvalid (j & combo & Hj & _ & ->)%elem_of_details.
  destruct (detail_of_consistent ds j combo)
    as (Hh & Hsh & Hsm & Hdisj & Hunion & _ & Hlen).
  split_and!; try done.
  - exists combo. simpl. by replace (j + 1 - 1)%nat with j by lia.
  - rewrite Hlen. apply well_formed_size.
    eapply all_valid_well_formed; [done|]. by eapply list_elem_of_lookup_2.
Qed.

Lemma detail_consistent_witness :
  let combinations := [[10; 9; 8; 4; 3; 2; 1]; [30; 31; 32; 33; 34; 35; 36]] in
  let ds := frozenset [1; 2; 3; 4; 5; 6; 7] in
  let d := {| index := 1; combination := [1; 2; 3; 4; 8; 9; 10]; hits := 4;
              hit_numbers := [1; 2; 3; 4]; miss_numbers := [8; 9; 10] |} in
  all_valid combinations ∧
  details (analyse_hits combinations ds) = [d] ∧
  hits d = length (hit_numbers d) ∧
  frozenset (hit_numbers d) ∪ frozenset (miss_numbers d)
    = frozenset (combination d) ∧
  (length (hit_numbers d) + length (miss_numbers d))%nat = 7%nat.
Proof.
  assert (all_valid [[10; 9; 8; 4; 3; 2; 1]; [30; 31; 32; 33; 34; 35; 36]])
    as Hvalid by (repeat constructor).
  split; [exact Hvalid|]. split; [vm_compute; reflexivity|].
  pose proof (detail_consistent
                [[10; 9; 8; 4; 3; 2; 1]; [30; 31; 32; 33; 34; 35; 36]]
                (frozenset [1; 2; 3; 4; 5; 6; 7])
                {| index := 1; combination := [1; 2; 3; 4; 8; 9; 10]; hits := 4;
                   hit_numbers := [1; 2; 3; 4]; miss_numbers := [8; 9; 10] |}
                Hvalid) as H.
  destruct H as (_ & Hh & _ & _ & _ & Hu & Hl).
  { replace (details _) with
      [{| index := 1; combination := [1; 2; 3; 4; 8; 9; 10]; hits := 4;
          hit_numbers := [1; 2; 3; 4]; miss_numbers := [8; 9; 10] |}]
      by (vm_compute; reflexivity).
    apply list_elem_of_singleton. reflexivity. }
  split_and!; assumption.
Defined.

(** *** The totals *)

Lemma hits_of_le_6 ds c :
  well_formed c → size ds = 7%nat → frozenset c ≠ ds → (hits_of ds c ≤ 6)%nat.
Proof.
  intros Hc%well_formed_size Hds Hne. unfold hits_of.
  assert (size (frozenset c ∩ ds) ≤ size (frozenset c))%nat as Hle
    by (apply subseteq_size; set_solver).
  destruct (decide (size (frozenset c ∩ ds) = 7%nat)) as [H7|]; [|lia].
  destruct Hne.
  assert (frozenset c ∩ ds = frozenset c) as H1
    by (apply set_subseteq_size_eq; [set_solver|lia]).
  assert (frozenset c ∩ ds = ds) as H2
    by (apply set_subseteq_size_eq; [set_solver|lia]).
  congruence.
Qed.

Lemma count_hits_total ds combinations :
  Forall (λ c, (hits_of ds c ≤ 6)%nat) combinations →
  length (filter (λ combo, (4 ≤ hits_of ds combo)%nat) combinations) =
  (count_hits ds 4 combinations + count_hits ds 5 combinations
   + count_hits ds 6 combinations)%nat.
Proof.
  induction 1 as [|c rest Hc _ IH]; [done|].
  rewrite !count_hits_cons, filter_cons.
  repeat case_decide; simpl; lia.
Qed.

Lemma analyse_hits_totals combinations ds :
  Forall (λ c, (hits_of ds c ≤ 6)%nat) combinations →
  (six_hits (analyse_hits combinations ds)
   + five_hits (analyse_hits combinations ds)
   + four_hits (analyse_hits combinations ds)
   = total_with_hits (analyse_hits combinations ds))%nat ∧
  total_with_hits (analyse_hits combinations ds)
  = length (details (analyse_hits combinations ds)).
Proof.
  intros Hle. rewrite analyse_hits_eq. simpl. split; [lia|].
  by rewrite sort_desc_Permutation, appended_length, count_hits_total.
Qed.

Lemma dedup_sets_elem_of validated X :
  X ∈ dedup_sets validated ↔ ∃ c, c ∈ validated ∧ X = frozenset c.
Proof.
  unfold dedup_sets. rewrite elem_of_elements, elem_of_list_to_set.
  rewrite list_elem_of_fmap. naive_solver.
Qed.

Lemma pipeline_hits_le_6 {rng : Type}
    (sample : rng → list Z → nat → list Z * rng) validated g D g' :
  sample_contract sample →
  all_valid validated →
  generate_unique_draw sample (dedup_sets validated) g = (Ok D, g') →
  Forall (λ c, (hits_of (frozenset D) c ≤ 6)%nat) validated.
Proof.
  intros Hc Hvalid (s & Hwf & -> & Hout)%generate_unique_draw_Ok; [|done].
  apply Forall_forall. intros c Hin. rewrite sorted_frozenset.
  apply hits_of_le_6.
  - by eapply all_valid_well_formed.
  - by apply well_formed_size.
  - intros Heq. apply Hout, dedup_sets_elem_of. by exists c.
Qed.

(** C3.  For validated combinations and the draw that the generator
    returns for their deduplicated value-sets, the report of [analyse_hits]
    has [six_hits + five_hits + four_hits = total_with_hits], and that is the
    number of records in [details]. *)
Theorem hit_report_totals {rng : Type}
    (sample : rng → list Z → nat → list Z * rng)
    (validated : list (list Z)) (g : rng) (D : list Z) (g' : rng) :
  sample_contract sample →
  all_valid validated →
  generate_unique_draw sample (dedup_sets validated) g = (Ok D, g') →
  (six_hits (analyse_hits validated (frozenset D))
   + five_hits (analyse_hits validated (frozenset D))
   + four_hits (analyse_hits validated (frozenset D))
   = total_with_hits (analyse_hits validated (frozenset D)))%nat ∧
  total_with_hits (analyse_hits validated (frozenset D))
  = length (details (analyse_hits validated (frozenset D))).
Proof.
  intros Hc Hvalid Hgen.
  by eapply analyse_hits_totals, pipeline_hits_le_6.
Qed.

Lemma hit_report_totals_witness :
  let validated :=
    [[1; 2; 3; 4; 5; 6; 7]; [7; 6; 5; 4; 3; 2; 1]; [1; 2; 3; 4; 5; 20; 21];
     [1; 2; 3; 4; 22; 23; 24]; [30; 31; 32; 33; 34; 35; 36]] in
  let g := [[7; 1; 2; 3; 4; 5; 6]; [9; 6; 5; 4; 3; 2; 1]] in
  let D := [1; 2; 3; 4; 5; 6; 9] in
  all_valid validated ∧
  generate_unique_draw scripted_sample (dedup_sets validated) g = (Ok D, []) ∧
  (six_hits (analyse_hits validated (frozenset D))
   + five_hits (analyse_hits validated (frozenset D))
   + four_hits (analyse_hits validated (frozenset D))
   = total_with_hits (analyse_hits validated (frozenset D)))%nat ∧
  total_with_hits (analyse_hits validated (frozenset D))
  = length (details (analyse_hits validated (frozenset D))).
Proof.
  assert (all_valid
            [[1; 2; 3; 4; 5; 6; 7]; [7; 6; 5; 4; 3; 2; 1];
             [1; 2; 3; 4; 5; 20; 21]; [1; 2; 3; 4; 22; 23; 24];
             [30; 31; 32; 33; 34; 35; 36]]) as Hvalid by (repeat constructor).
  split; [exact Hvalid|]. split; [vm_compute; reflexivity|].
  apply (hit_report_totals scripted_sample _
           [[7; 1; 2; 3; 4; 5; 6]; [9; 6; 5; 4; 3; 2; 1]]
           [1; 2; 3; 4; 5; 6; 9] [] scripted_sample_contract Hvalid).
  vm_compute; reflexivity.
Defined.

Example analyse_hits_on_a_full_match :
  let r := analyse_hits [[1; 2; 3; 4; 5; 6; 7]] (frozenset [1; 2; 3; 4; 5; 6; 7]) in
  total_with_hits r = 0%nat ∧ length (details r) = 1%nat.
Proof. vm_compute. done. Qed.

(** ** Deduplication *)

Lemma same_value_set_frozenset c1 c2 :
  same_value_set c1 c2 = true ↔ frozenset c1 = frozenset c2.
Proof.
  unfold same_value_set, frozenset.
  rewrite andb_true_iff, !forallb_forall. split.
  - intros [H12 H21]. apply set_eq. intros z. rewrite !elem_of_list_to_set.
    split; intros Hz%list_elem_of_In.
    + by eapply bool_decide_eq_true_1, H12.
    + by eapply bool_decide_eq_true_1, H21.
  - intros Heq. split; intros z Hz%list_elem_of_In; apply bool_decide_eq_true_2.
    + apply (elem_of_list_to_set (C:=gset Z)). rewrite <-Heq.
      by apply elem_of_list_to_set.
    + apply (elem_of_list_to_set (C:=gset Z)). rewrite Heq.
      by apply elem_of_list_to_set.
Qed.

Lemma same_value_set_Permutation c1 c2 : c1 ≡ₚ c2 → same_value_set c1 c2 = true.
Proof.
  intros Hp. apply same_value_set_frozenset. by apply list_to_set_perm_L.
Qed.

Lemma size_list_to_set_cons (X : gset Z) (l : list (gset Z)) :
  size (list_to_set (X :: l) : gset (gset Z)) =
  ((if decide (X ∈ l) then 0 else 1) + size (list_to_set l : gset (gset Z)))%nat.
Proof.
  simpl. case_decide as Hin.
  - assert ({[X]} ∪ (list_to_set l : gset (gset Z)) = list_to_set l) as ->
      by set_solver.
    done.
  - rewrite size_union, size_singleton; [done|]. set_solver.
Qed.

Lemma length_dedup_sets validated :
  length (dedup_sets validated) = distinct_value_sets validated.
Proof.
  unfold dedup_sets. change (length (elements ?X)) with (size X).
  induction validated as [|c rest IH]; [done|].
  rewrite fmap_cons, size_list_to_set_cons, IH. simpl. f_equal.
  destruct (existsb (same_value_set c) rest) eqn:Hex.
  - apply existsb_exists in Hex as (c' & Hin%list_elem_of_In & Hsame).
    apply same_value_set_frozenset in Hsame.
    rewrite decide_True; [done|]. rewrite Hsame. by apply list_elem_of_fmap_2.
  - rewrite decide_False; [done|].
    intros (c' & Heq & Hin)%list_elem_of_fmap.
    apply not_true_iff_false in Hex. apply Hex, existsb_exists.
    exists c'. split; [by apply list_elem_of_In|].
    by apply same_value_set_frozenset.
Qed.

Lemma distinct_value_sets_le combinations :
  (distinct_value_sets combinations ≤ length combinations)%nat.
Proof.
  induction combinations as [|c rest IH]; simpl; [done|].
  destruct (existsb _ _); lia.
Qed.

Lemma distinct_value_sets_pos combinations :
  combinations ≠ [] → (1 ≤ distinct_value_sets combinations)%nat.
Proof.
  induction combinations as [|c rest IH]; [done|]. intros _. simpl.
  destruct rest as [|c' rest']; [simpl; lia|].
  destruct (existsb _ _); [|lia]. simpl. apply IH. done.
Qed.

(** ** The request handler *)

Lemma validate_all_app i pre rest validated :
  validate_all i (pre ++ rest) validated =
  match validate_all i pre validated with
  | inl r => inl r
  | inr v => validate_all (i + length pre) rest v
  end.
Proof.
  revert i validated. induction pre as [|combo pre IH]; intros i validated.
  { simpl. by rewrite Nat.add_0_r. }
  cbn [app validate_all]. destruct combo; try done.
  destruct (int_all l) as [numbers|[]]; try done.
  destruct (validate_combination _) as [[] msg]; simpl; [|done].
  rewrite IH. by replace (S i + length pre)%nat with (i + S (length pre))%nat by lia.
Qed.

Lemma validate_all_inr i combinations validated v :
  validate_all i combinations validated = inr v →
  ∃ news, v = validated ++ news ∧ length news = length combinations ∧
          all_valid news.
Proof.
  revert i validated.
  induction combinations as [|combo rest IH]; intros i validated.
  { intros [= <-]. exists []. rewrite app_nil_r.
    split_and!; [done|done|constructor]. }
  cbn [validate_all]. destruct combo; try done.
  destruct (int_all l) as [numbers|[]]; try done.
  destruct (validate_combination _) as [[] msg] eqn:Hv; simpl; [|done].
  intros (news & -> & Hlen & Hvalid)%IH.
  exists (numbers :: news). rewrite <-app_assoc. split_and!; [done|simpl; lia|].
  constructor; [|done].
  apply validate_combination_valid_msg. by rewrite Hv.
Qed.

Lemma dict_get_Some k items v :
  dict_get k items = Some v → items ≠ [] ∧ k ∈ items.*1.
Proof.
  induction items as [|[k' v'] items IH]; [done|]. simpl.
  case_bool_decide as Hk.
  - intros _. split; [done|]. subst. by left.
  - intros [_ Hin]%IH. split; [done|]. by right.
Qed.

Lemma validated_of_carries data batch :
  carries data batch →
  (1 ≤ length batch ≤ MAX_COMBINATIONS)%nat →
  validated_of data = validate_all 0 batch [].
Proof.
  intros (items & -> & Hget) [Hlo Hhi]. unfold validated_of.
  destruct (dict_get_Some _ _ _ Hget) as [Hne Hin].
  simpl. rewrite bool_decide_eq_false_2 by (by destruct items).
  rewrite bool_decide_eq_true_2 by done. rewrite Hget.
  rewrite bool_decide_eq_false_2 by lia.
  by apply Nat.ltb_ge in Hhi as ->.
Qed.

Lemma validated_of_inr data validated :
  validated_of data = inr validated →
  (1 ≤ length validated ≤ MAX_COMBINATIONS)%nat ∧ all_valid validated.
Proof.
  unfold validated_of. destruct (falsy data); [done|].
  destruct (py_contains _ _) as [[]|]; [|done..].
  destruct (py_getitem _ _) as [v|]; [|done].
  destruct v; try done.
  case_bool_decide as Hlen; [done|].
  destruct (_ <? _)%nat eqn:Hmax; [done|]. apply Nat.ltb_ge in Hmax.
  intros (news & -> & Hl & Hvalid)%validate_all_inr. simpl.
  split; [lia|done].
Qed.

Lemma validate_all_inl i combinations validated r body :
  validate_all i combinations validated = inl r → r ≠ JsonOk body.
Proof.
  revert i validated.
  induction combinations as [|combo rest IH]; intros i validated; [done|].
  cbn [validate_all]. destruct combo; try by intros [= <-].
  destruct (int_all l) as [numbers|[]]; try by intros [= <-].
  destruct (validate_combination _) as [[] msg]; simpl.
  - apply IH.
  - by intros [= <-].
Qed.

Lemma validated_of_inl data r body :
  validated_of data = inl r → r ≠ JsonOk body.
Proof.
  unfold validated_of. destruct (falsy data); [by intros [= <-]|].
  destruct (py_contains _ _) as [[]|]; [|by intros [= <-]..].
  destruct (py_getitem _ _) as [v|]; [|by intros [= <-]].
  destruct v; try by intros [= <-].
  case_bool_decide; [by intros [= <-]|].
  destruct (_ <? _)%nat; [by intros [= <-]|].
  apply validate_all_inl.
Qed.

Lemma draw_JsonOk {rng : Type} (sample : rng → list Z → nat → list Z * rng)
    data g body g' :
  draw sample data g = (JsonOk body, g') →
  ∃ validated,
    validated_of data = inr validated ∧
    generate_unique_draw sample (dedup_sets validated) g
      = (Ok (Resp.draw body), g') ∧
    body = {| Resp.draw := Resp.draw body;
              Resp.combinations_submitted := length validated;
              Resp.unique_combinations := length (dedup_sets validated);
              Resp.message := msg_done (length (dedup_sets validated));
              Resp.hit_report :=
                analyse_hits validated (frozenset (Resp.draw body)) |}.
Proof.
  unfold draw. destruct (validated_of data) as [r|validated] eqn:Hv.
  { intros [= -> _]. by apply validated_of_inl with (body := body) in Hv. }
  unfold respond.
  destruct (generate_unique_draw _ _ _) as [[result|e] g1] eqn:Hgen.
  - intros [= <- <-]. exists validated. done.
  - by destruct e.
Qed.

Lemma distinct_value_sets_collapse c1 c2 rest :
  c1 ≡ₚ c2 →
  distinct_value_sets (c1 :: c2 :: rest) = distinct_value_sets (c2 :: rest).
Proof.
  intros Hp. cbn [distinct_value_sets existsb].
  by rewrite (same_value_set_Permutation c1 c2 Hp).
Qed.

(** C7.  On a success response [combinations_submitted] is the number of
    validated combinations, duplicates included, and [unique_combinations]
    is the number of distinct value-sets among them: combinations with the
    same numbers in any order count once. *)
Theorem dedup_counts {rng : Type}
    (sample : rng → list Z → nat → list Z * rng)
    (data : pyval) (g : rng) (body : Resp.body) (g' : rng) :
  draw sample data g = (JsonOk body, g') →
  ∃ validated,
    validated_of data = inr validated ∧
    Resp.combinations_submitted body = length validated ∧
    Resp.unique_combinations body = distinct_value_sets validated.
Proof.
  intros (validated & Hv & _ & ->)%draw_JsonOk.
  exists validated. simpl. by rewrite length_dedup_sets.
Qed.

(** C10.  On a success response the counts satisfy
    [1 ≤ unique_combinations ≤ combinations_submitted ≤ 200], and the field
    [draw] is the list [generate_unique_draw] returned for the deduplicated
    value-sets of the validated combinations. *)
Theorem success_counts {rng : Type}
    (sample : rng → list Z → nat → list Z * rng)
    (data : pyval) (g : rng) (body : Resp.body) (g' : rng) :
  draw sample data g = (JsonOk body, g') →
  (1 ≤ Resp.unique_combinations body
   ∧ Resp.unique_combinations body ≤ Resp.combinations_submitted body
   ∧ Resp.combinations_submitted body ≤ 200)%nat ∧
  ∃ validated,
    validated_of data = inr validated ∧
    generate_unique_draw sample (dedup_sets validated) g
      = (Ok (Resp.draw body), g').
Proof.
  intros (validated & Hv & Hgen & ->)%draw_JsonOk. simpl.
  destruct (validated_of_inr _ _ Hv) as [[Hlo Hhi] _].
  rewrite length_dedup_sets. split; [|by exists validated].
  split_and!.
  - apply distinct_value_sets_pos. intros ->. simpl in Hlo. lia.
  - apply distinct_value_sets_le.
  - exact Hhi.
Qed.

(** *** Elements that are not integers *)

Lemma py_int_Raise v e :
  py_int v = Raise e → e = ValueError ∨ e = TypeError ∨ e = OverflowError.
Proof.
  destruct v as [|b|z|f|s|l|items]; simpl; try (intros [= <-]; by auto).
  - destruct f; simpl; intros [= <-]; auto.
  - destruct (int_of_string s); intros [= <-]; auto.
Qed.

Lemma int_all_app_Raise pre x post e :
  Forall (λ y, ∃ z, py_int y = Ok z) pre →
  py_int x = Raise e →
  int_all (pre ++ x :: post) = Raise e.
Proof.
  induction 1 as [|y pre [z Hy] _ IH]; intros Hx; simpl.
  - by rewrite Hx.
  - rewrite Hy. simpl. by rewrite IH.
Qed.

Lemma int_all_length combo numbers :
  int_all combo = Ok numbers → length numbers = length combo.
Proof.
  revert numbers. induction combo as [|x rest IH]; intros numbers; simpl.
  { by intros [= <-]. }
  destruct (py_int x) as [z|]; simpl; [|done].
  destruct (int_all rest) as [zs|]; simpl; [|done].
  intros [= <-]. simpl. f_equal. by apply IH.
Qed.

(** After coercion [validate_combination] never answers with the message
    about integers. *)
Lemma validate_combination_ints_msg (c : list Z) :
  (validate_combination (PInt <$> c)).2 ≠ msg_integers.
Proof.
  unfold validate_combination. destruct (negb _); [done|].
  generalize (∅ : gset Z). induction c as [|z c IH]; intros seen; simpl; [done|].
  destruct (negb _); [done|]. case_bool_decide; [done|]. apply IH.
Qed.

(** The response of the handler when the combination after the accepted
    combinations [pre] is the first to be rejected. *)
Lemma draw_at {rng : Type} (sample : rng → list Z → nat → list Z * rng)
    data batch pre combo post v (g : rng) :
  carries data batch →
  (length batch ≤ MAX_COMBINATIONS)%nat →
  batch = pre ++ PList combo :: post →
  validate_all 0 pre [] = inr v →
  draw sample data g =
  match validate_all (length pre) (PList combo :: post) v with
  | inl r => (r, g)
  | inr validated => respond sample validated g
  end.
Proof.
  intros Hdata Hmax -> Hpre. unfold draw.
  rewrite (validated_of_carries data _ Hdata).
  - by rewrite validate_all_app, Hpre.
  - split; [|done]. rewrite length_app. simpl. lia.
Qed.

(** C5 (as amended).  A submitted combination in which the first element
    that [int] does not coerce is refused with a [ValueError] or a
    [TypeError] (text that is no number, [null], a nested list) makes the
    handler reject the batch with status 400 and the message
    "Combination i contains non-integer values.", i being the 1-based
    position of the combination, when the combinations before it were
    accepted. *)
Theorem non_integer_rejected {rng : Type}
    (sample : rng → list Z → nat → list Z * rng)
    (data : pyval) (batch pre : list pyval) (before : list pyval) (x : pyval)
    (after : list pyval) (post : list pyval) (v : list (list Z)) (g : rng) :
  carries data batch →
  (length batch ≤ 200)%nat →
  batch = pre ++ PList (before ++ x :: after) :: post →
  validate_all 0 pre [] = inr v →
  Forall (λ y, ∃ z, py_int y = Ok z) before →
  py_int x = Raise ValueError ∨ py_int x = Raise TypeError →
  draw sample data g =
  (JsonError 400 ("Combination " +:+ pretty (length pre + 1)%nat
                    +:+ " contains non-integer values."), g).
Proof.
  intros Hdata Hmax Hbatch Hpre Hbefore Hx.
  rewrite (draw_at sample data batch pre (before ++ x :: after) post v g)
    by done.
  cbn [validate_all].
  by destruct Hx as [Hx|Hx];
    rewrite (int_all_app_Raise before x after _ Hbefore Hx).
Qed.

(** *** Combinations of the wrong length *)

(** C6 (as amended).  A submitted combination whose length is not 7 and
    whose elements all coerce to integers makes the handler reject the
    batch with status 400 and the message "Combination i: Each combination
    must have exactly 7 numbers.", when the combinations before it were
    accepted. *)
Theorem wrong_length_rejected {rng : Type}
    (sample : rng → list Z → nat → list Z * rng)
    (data : pyval) (batch pre : list pyval) (combo : list pyval)
    (numbers : list Z) (post : list pyval) (v : list (list Z)) (g : rng) :
  carries data batch →
  (length batch ≤ 200)%nat →
  batch = pre ++ PList combo :: post →
  validate_all 0 pre [] = inr v →
  int_all combo = Ok numbers →
  length combo ≠ 7%nat →
  draw sample data g =
  (JsonError 400 ("Combination " +:+ pretty (length pre + 1)%nat
                    +:+ ": Each combination must have exactly 7 numbers."), g).
Proof.
  intros Hdata Hmax Hbatch Hpre Hint Hlen.
  rewrite (draw_at sample data batch pre combo post v g) by done.
  cbn [validate_all]. rewrite Hint.
  rewrite validate_combination_length; [done|].
  by rewrite length_fmap, (int_all_length combo).
Qed.

(** The checks on the numbers run element by element: a repeat met first
    is reported although a later number is out of range. *)
Example validate_combination_elementwise :
  validate_combination (PInt <$> [1; 1; 40; 2; 3; 4; 5]) = (false, msg_unique) ∧
  validate_combination (PInt <$> [40; 1; 1; 2; 3; 4; 5]) = (false, msg_range) ∧
  validate_combination [PInt 40; PStr "x"; PInt 1; PInt 2; PInt 3; PInt 4; PInt 5]
  = (false, msg_range) ∧
  validate_combination [PFloat S754_nan; PInt 40; PInt 1; PInt 2; PInt 3; PInt 4;
                        PInt 5]
  = (false, msg_integers).
Proof. split_and!; reflexivity. Qed.

(** *** The report of a success response *)

(** X22.  What the handler hands to the client satisfies the properties of
    the report shown above for [analyse_hits]: the three counters add up to
    [total_with_hits], which is the number of records, and every record has
    4 to 6 hits, as many as it lists hit numbers, and 7 numbers in all. *)
Lemma draw_hit_report {rng : Type}
    (sample : rng → list Z → nat → list Z * rng) data g body g' :
  sample_contract sample →
  draw sample data g = (JsonOk body, g') →
  (six_hits (Resp.hit_report body) + five_hits (Resp.hit_report body)
   + four_hits (Resp.hit_report body)
   = total_with_hits (Resp.hit_report body))%nat ∧
  total_with_hits (Resp.hit_report body)
  = length (details (Resp.hit_report body)) ∧
  ∀ d, d ∈ details (Resp.hit_report body) →
       (4 ≤ hits d ≤ 6)%nat ∧
       hits d = length (hit_numbers d) ∧
       (length (hit_numbers d) + length (miss_numbers d))%nat = 7%nat.
Proof.
  intros Hc (validated & Hv & Hgen & ->)%draw_JsonOk. simpl.
  destruct (validated_of_inr _ _ Hv) as [_ Hvalid].
  pose proof (pipeline_hits_le_6 sample _ _ _ _ Hc Hvalid Hgen) as Hle.
  destruct (analyse_hits_totals _ _ Hle) as [Hsum Htotal].
  split_and!; [done|done|].
  intros d (j & combo & Hj & Hh & ->)%elem_of_details.
  apply list_elem_of_lookup_2 in Hj.
  destruct (detail_of_consistent (frozenset (Resp.draw body)) j combo)
    as (Hhits & _ & _ & _ & _ & _ & Hlen).
  rewrite Forall_forall in Hle. specialize (Hle combo Hj).
  split_and!; [done|done|done|].
  rewrite Hlen. apply well_formed_size. by eapply all_valid_well_formed.
Qed.

(** * Further properties of the code *)

(** ** The checks on the request body *)

Lemma dict_get_None k items : dict_get k items = None ↔ k ∉ items.*1.
Proof.
  induction items as [|[k' v'] items IH]; simpl.
  { split; [intros _ ?%elem_of_nil; done|done]. }
  case_bool_decide as Hk.
  - split; [done|]. intros Hn. destruct Hn. subst. by left.
  - rewrite IH. split.
    + intros Hn [->|?]%elem_of_cons; done.
    + intros Hn Hin. apply Hn. by right.
Qed.

(** X1.  A body that is falsy ([null], [false], 0, an empty string, list or
    object), or an object without the key "combinations", is answered with
    status 400 and "No combinations provided."; no sample is drawn. *)
Theorem no_combinations_field {rng : Type}
    (sample : rng → list Z → nat → list Z * rng) (data : pyval) (g : rng) :
  falsy data = true ∨
  (∃ items, data = PDict items ∧ "combinations"%string ∉ items.*1) →
  draw sample data g = (JsonError 400 "No combinations provided.", g).
Proof.
  unfold draw, validated_of. intros [Hf|(items & -> & Hk)].
  - by rewrite Hf.
  - destruct (falsy (PDict items)); [done|]. simpl.
    by rewrite bool_decide_eq_false_2.
Qed.

(** X2.  When the field "combinations" of the body is not a list, or is
    the empty list, the answer is status 400 and "Please provide at least
    one combination.". *)
Theorem no_batch {rng : Type}
    (sample : rng → list Z → nat → list Z * rng)
    (items : list (string * pyval)) (v : pyval) (g : rng) :
  dict_get "combinations" items = Some v →
  (∀ x l, v ≠ PList (x :: l)) →
  draw sample (PDict items) g
  = (JsonError 400 "Please provide at least one combination.", g).
Proof.
  intros Hget Hv. destruct (dict_get_Some _ _ _ Hget) as [Hne Hin].
  unfold draw, validated_of. simpl.
  rewrite bool_decide_eq_false_2 by (by destruct items).
  rewrite bool_decide_eq_true_2 by done. rewrite Hget.
  destruct v as [| | | | |[|x l]|]; try done. by destruct (Hv x l).
Qed.

(** X3.  A batch of more than 200 entries is answered with status 400 and
    "Maximum 200 combinations allowed.", whatever the entries are: none of
    them is looked at. *)
Theorem oversized_batch {rng : Type}
    (sample : rng → list Z → nat → list Z * rng)
    (data : pyval) (batch : list pyval) (g : rng) :
  carries data batch →
  (200 < length batch)%nat →
  draw sample data g = (JsonError 400 "Maximum 200 combinations allowed.", g).
Proof.
  intros (items & -> & Hget) Hlen.
  destruct (dict_get_Some _ _ _ Hget) as [Hne Hin].
  unfold draw, validated_of. simpl.
  rewrite bool_decide_eq_false_2 by (by destruct items).
  rewrite bool_decide_eq_true_2 by done. rewrite Hget.
  rewrite bool_decide_eq_false_2 by lia.
  change 200%nat with MAX_COMBINATIONS in Hlen.
  by apply Nat.ltb_lt in Hlen as ->.
Qed.

(** ** The validation loop of the handler *)

Lemma validate_all_accepted i batch acc v :
  validate_all i batch acc = inr v ↔
  ∃ news, v = acc ++ news ∧ accepted batch news.
Proof.
  revert i acc. induction batch as [|x rest IH]; intros i acc.
  { simpl. split.
    - intros [= <-]. exists []. rewrite app_nil_r. split; [done|constructor].
    - intros (news & -> & Hacc). apply Forall2_nil_inv_l in Hacc as ->.
      by rewrite app_nil_r. }
  cbn [validate_all]. split.
  - destruct x; try done.
    destruct (int_all l) as [numbers|[]] eqn:Hint; try done.
    destruct (validate_combination _) as [[] msg] eqn:Hv; simpl; [|done].
    intros (news & -> & Hacc)%IH. exists (numbers :: news).
    rewrite <-app_assoc. split; [done|]. constructor; [|done].
    split; [by exists l|].
    apply validate_combination_well_formed. by rewrite Hv.
  - intros (news & -> & Hacc).
    apply Forall2_cons_inv_l in Hacc
      as (c & news' & [(elems & -> & Hint) Hwf] & Hacc & ->).
    rewrite Hint. apply validate_combination_ints in Hwf. rewrite Hwf. simpl.
    apply IH. exists news'. by rewrite <-app_assoc.
Qed.

Lemma accepted_length batch validated :
  accepted batch validated → length validated = length batch.
Proof. intros H. symmetry. by eapply Forall2_length. Qed.

Lemma coerces_to_inj x c1 c2 : coerces_to x c1 → coerces_to x c2 → c1 = c2.
Proof. intros (e1 & -> & H1) (e2 & [= <-] & H2). congruence. Qed.

Lemma carries_inj data b1 b2 : carries data b1 → carries data b2 → b1 = b2.
Proof. intros (i1 & -> & H1) (i2 & [= <-] & H2). congruence. Qed.

Lemma draw_rejects {rng : Type} (sample : rng → list Z → nat → list Z * rng)
    data batch pre x post v (g : rng) r :
  carries data batch →
  (length batch ≤ MAX_COMBINATIONS)%nat →
  batch = pre ++ x :: post →
  accepted pre v →
  (∀ acc, validate_all (length pre) (x :: post) acc = inl r) →
  draw sample data g = (r, g).
Proof.
  intros Hdata Hmax -> Hpre Hx. unfold draw.
  rewrite (validated_of_carries data _ Hdata).
  - rewrite validate_all_app.
    assert (validate_all 0 pre [] = inr v) as ->
      by (apply validate_all_accepted; by exists v).
    cbn [Nat.add]. by rewrite Hx.
  - split; [|done]. rewrite length_app. simpl. lia.
Qed.

(** X4.  The first entry of the batch that is not a list, the entries
    before it having been accepted, is answered with status 400 and
    "Combination i is not a valid list.", i counting from 1. *)
Theorem non_list_entry {rng : Type}
    (sample : rng → list Z → nat → list Z * rng)
    (data : pyval) (batch pre : list pyval) (x : pyval) (post : list pyval)
    (v : list (list Z)) (g : rng) :
  carries data batch →
  (length batch ≤ 200)%nat →
  batch = pre ++ x :: post →
  accepted pre v →
  (∀ l, x ≠ PList l) →
  draw sample data g =
  (JsonError 400 ("Combination " +:+ pretty (length pre + 1)%nat
                    +:+ " is not a valid list."), g).
Proof.
  intros Hdata Hmax Hbatch Hpre Hx.
  apply (draw_rejects sample data batch pre x post v); try done.
  intros acc. cbn [validate_all]. destruct x; try done. by destruct (Hx l).
Qed.

(** X5.  The first combination that [validate_combination] refuses, after
    its elements were coerced and the entries before it accepted, is
    answered with status 400 and "Combination i: " followed by the message
    of [validate_combination]. *)
Theorem invalid_combination {rng : Type}
    (sample : rng → list Z → nat → list Z * rng)
    (data : pyval) (batch pre : list pyval) (x : pyval) (post : list pyval)
    (v : list (list Z)) (numbers : list Z) (msg : string) (g : rng) :
  carries data batch →
  (length batch ≤ 200)%nat →
  batch = pre ++ x :: post →
  accepted pre v →
  coerces_to x numbers →
  validate_combination (PInt <$> numbers) = (false, msg) →
  draw sample data g =
  (JsonError 400 ("Combination " +:+ pretty (length pre + 1)%nat
                    +:+ ": " +:+ msg), g).
Proof.
  intros Hdata Hmax Hbatch Hpre (elems & -> & Hint) Hv.
  apply (draw_rejects sample data batch pre (PList elems) post v); try done.
  intros acc. cbn [validate_all]. by rewrite Hint, Hv.
Qed.

(** X6.  An infinite float among the elements of a combination, the
    elements before it being coercible and the entries before the
    combination accepted, makes [int] raise an [OverflowError], which the
    [except (ValueError, TypeError)] clause lets through: the handler ends
    in that exception instead of a 400 response. *)
Theorem infinite_float_escapes {rng : Type}
    (sample : rng → list Z → nat → list Z * rng)
    (data : pyval) (batch pre : list pyval) (before : list pyval) (s : bool)
    (after : list pyval) (post : list pyval) (v : list (list Z)) (g : rng) :
  carries data batch →
  (length batch ≤ 200)%nat →
  batch = pre ++ PList (before ++ PFloat (S754_infinity s) :: after) :: post →
  accepted pre v →
  Forall (λ y, ∃ z, py_int y = Ok z) before →
  draw sample data g = (Unhandled OverflowError, g).
Proof.
  intros Hdata Hmax Hbatch Hpre Hbefore.
  apply (draw_rejects sample data batch pre
           (PList (before ++ PFloat (S754_infinity s) :: after)) post v);
    try done.
  intros acc. cbn [validate_all].
  by rewrite (int_all_app_Raise before _ after OverflowError).
Qed.

(** ** What the handler can end in *)

Lemma int_all_Raise_inv combo e :
  int_all combo = Raise e → e = ValueError ∨ e = TypeError ∨ e = OverflowError.
Proof.
  induction combo as [|x rest IH]; simpl; [done|].
  destruct (py_int x) as [z|e'] eqn:Hx; simpl.
  - destruct (int_all rest) as [zs|e'']; simpl; [done|].
    intros [= <-]. by apply IH.
  - intros [= <-]. by eapply py_int_Raise.
Qed.

Lemma validate_all_inl_cases i batch acc r :
  validate_all i batch acc = inl r →
  (∃ m, r = JsonError 400 m) ∨ r = Unhandled OverflowError.
Proof.
  revert i acc. induction batch as [|x rest IH]; intros i acc; [done|].
  cbn [validate_all]. destruct x; try (intros [= <-]; left; by eexists).
  destruct (int_all l) as [numbers|e] eqn:Hint.
  - destruct (validate_combination _) as [[] msg]; simpl; [apply IH|].
    intros [= <-]. left. by eexists.
  - destruct (int_all_Raise_inv _ _ Hint) as [->|[->| ->]]; intros [= <-];
      [left; by eexists..|by right].
Qed.

Lemma validated_of_inl_cases data r :
  validated_of data = inl r →
  (∃ m, r = JsonError 400 m) ∨ r = Unhandled TypeError
  ∨ r = Unhandled OverflowError.
Proof.
  unfold validated_of.
  destruct (falsy data); [intros [= <-]; left; by eexists|].
  destruct (py_contains _ _) as [[]|e] eqn:Hc.
  - destruct (py_getitem _ _) as [v|e] eqn:Hg.
    + destruct v; try (intros [= <-]; left; by eexists).
      case_bool_decide; [intros [= <-]; left; by eexists|].
      destruct (_ <? _)%nat; [intros [= <-]; left; by eexists|].
      intros [?| ->]%validate_all_inl_cases; auto.
    + intros [= <-]. right. left. f_equal.
      destruct data; simpl in Hg; try by injection Hg as <-.
      destruct (dict_get _ _) eqn:Hd; [done|].
      apply dict_get_None in Hd. injection Hc as Hc.
      by apply bool_decide_eq_true_1 in Hc.
  - intros [= <-]. left. by eexists.
  - intros [= <-]. right. left. f_equal.
    by destruct data; simpl in Hc; try done; injection Hc as <-.
Qed.

(** X7.  Whatever the request body and the random source, the handler ends
    in one of five ways: a 400 response, the 500 response of the exhausted
    generator, a success response, or an uncaught [TypeError] or
    [OverflowError]; only the generator moves the random state. *)
Theorem handler_outcomes {rng : Type}
    (sample : rng → list Z → nat → list Z * rng) (data : pyval) (g : rng) :
  (∃ m, draw sample data g = (JsonError 400 m, g)) ∨
  (∃ g', draw sample data g = (JsonError 500 msg_exhausted, g')) ∨
  (∃ body g', draw sample data g = (JsonOk body, g')) ∨
  draw sample data g = (Unhandled TypeError, g) ∨
  draw sample data g = (Unhandled OverflowError, g).
Proof.
  unfold draw. destruct (validated_of data) as [r|validated] eqn:Hv.
  - destruct (validated_of_inl_cases _ _ Hv) as [[m ->]|[->| ->]]; eauto 6.
  - unfold respond.
    destruct (generate_unique_draw _ _ _) as [[result|e] g'] eqn:Hgen.
    + right. right. left. by eexists _, _.
    + apply attempts_Raise_inv in Hgen as ->. right. left. by eexists.
Qed.

(** X8.  A body that is not a JSON object never gets a draw: it is
    answered with "No combinations provided." or, when the [in] test or
    the subscript fails on it, ends in an uncaught [TypeError]. *)
Theorem non_object_body {rng : Type}
    (sample : rng → list Z → nat → list Z * rng) (data : pyval) (g : rng) :
  (∀ items, data ≠ PDict items) →
  draw sample data g = (JsonError 400 "No combinations provided.", g) ∨
  draw sample data g = (Unhandled TypeError, g).
Proof.
  intros Hdata. unfold draw, validated_of.
  destruct (falsy data); [by left|].
  destruct data as [|b|z|f|s|l|items]; simpl; auto.
  - destruct (is_substring _ _); auto.
  - destruct (existsb _ _); auto.
  - by destruct (Hdata items).
Qed.

(** ** Accepted batches *)

Lemma validated_of_inr_inv data validated :
  validated_of data = inr validated →
  ∃ batch, carries data batch ∧
           (1 ≤ length batch ≤ MAX_COMBINATIONS)%nat ∧
           accepted batch validated.
Proof.
  unfold validated_of. destruct (falsy data); [done|].
  destruct (py_contains _ _) as [[]|]; [|done..].
  destruct (py_getitem _ _) as [v|] eqn:Hg; [|done].
  destruct v as [| | | | |batch|]; try done.
  case_bool_decide as Hlen; [done|].
  destruct (_ <? _)%nat eqn:Hmax; [done|]. apply Nat.ltb_ge in Hmax.
  intros (news & -> & Hacc)%validate_all_accepted.
  exists batch. split_and!; [|lia|done|done].
  destruct data; simpl in Hg; try done.
  destruct (dict_get _ _) as [v|] eqn:Hd; [|done].
  injection Hg as ->. by exists items.
Qed.

Lemma validated_of_accepted data batch validated :
  carries data batch →
  (1 ≤ length batch ≤ MAX_COMBINATIONS)%nat →
  accepted batch validated →
  validated_of data = inr validated.
Proof.
  intros Hdata Hlen Hacc. rewrite (validated_of_carries data batch) by done.
  apply validate_all_accepted. by exists validated.
Qed.

Lemma generate_unique_draw_fresh {rng : Type}
    (sample : rng → list Z → nat → list Z * rng) F g D g' :
  generate_unique_draw sample F g = (Ok D, g') → frozenset D ∉ F.
Proof.
  intros (k & _ & -> & Hout)%attempts_Ok. rewrite sorted_frozenset.
  by rewrite elem_of_list_to_set in Hout.
Qed.

(** X9.  A success response is only given to a body whose field
    "combinations" is a list of 1 to 200 lists, each of which coerces to 7
    distinct integers of [1,36]; [combinations_submitted] is the length of
    that list, so no entry is dropped. *)
Theorem success_requires {rng : Type}
    (sample : rng → list Z → nat → list Z * rng)
    (data : pyval) (g : rng) (body : Resp.body) (g' : rng) :
  draw sample data g = (JsonOk body, g') →
  ∃ batch validated,
    carries data batch ∧
    (1 ≤ length batch ≤ 200)%nat ∧
    Forall2 (λ x c, (∃ elems, x = PList elems ∧ int_all elems = Ok c) ∧
                    length c = 7%nat ∧ Forall (λ z, 1 ≤ z ≤ 36) c ∧ NoDup c)
      batch validated ∧
    Resp.combinations_submitted body = length batch.
Proof.
  intros (validated & Hv & _ & ->)%draw_JsonOk.
  apply validated_of_inr_inv in Hv as (batch & Hdata & Hlen & Hacc).
  exists batch, validated.
  split; [done|]. split; [exact Hlen|]. split; [exact Hacc|].
  simpl. by apply accepted_length.
Qed.

Lemma accepted_elem_of batch validated x c :
  accepted batch validated → x ∈ batch → coerces_to x c → c ∈ validated.
Proof.
  intros Hacc Hx Hc. apply list_elem_of_lookup in Hx as [i Hi].
  destruct (Forall2_lookup_l _ _ _ _ _ Hacc Hi) as (c' & Hc' & Hxc' & _).
  rewrite (coerces_to_inj x c c' Hc Hxc'). by eapply list_elem_of_lookup_2.
Qed.

(** X10.  The draw of a success response is never one of the submitted
    combinations: for every entry of the batch, the numbers it coerces to
    are not the numbers of the draw in any order. *)
Theorem draw_never_matches {rng : Type}
    (sample : rng → list Z → nat → list Z * rng)
    (data : pyval) (g : rng) (body : Resp.body) (g' : rng)
    (batch : list pyval) (x : pyval) (c : list Z) :
  draw sample data g = (JsonOk body, g') →
  carries data batch →
  x ∈ batch →
  coerces_to x c →
  frozenset (Resp.draw body) ≠ frozenset c ∧ ¬ (Resp.draw body ≡ₚ c).
Proof.
  intros (validated & Hv & Hgen & _)%draw_JsonOk Hdata Hx Hc.
  apply validated_of_inr_inv in Hv as (batch' & Hdata' & _ & Hacc).
  rewrite (carries_inj data batch batch' Hdata Hdata') in Hx.
  pose proof (accepted_elem_of _ _ _ _ Hacc Hx Hc) as Hin.
  apply generate_unique_draw_fresh in Hgen.
  assert (frozenset (Resp.draw body) ≠ frozenset c) as Hne.
  { intros Heq. apply Hgen, dedup_sets_elem_of. by exists c. }
  split; [done|]. intros Hp. apply Hne. by apply list_to_set_perm_L.
Qed.

(** X11.  A batch of 1 to 200 entries that are all accepted is never
    answered with a 400 response or an exception: the handler answers with
    a success response that counts every entry and reports the hits against
    its own draw, or with the 500 response of the exhausted generator. *)
Theorem valid_batch_served {rng : Type}
    (sample : rng → list Z → nat → list Z * rng)
    (data : pyval) (batch : list pyval) (validated : list (list Z)) (g : rng) :
  carries data batch →
  (1 ≤ length batch ≤ 200)%nat →
  accepted batch validated →
  (∃ body g',
     draw sample data g = (JsonOk body, g') ∧
     Resp.combinations_submitted body = length batch ∧
     Resp.hit_report body
     = analyse_hits validated (frozenset (Resp.draw body))) ∨
  (∃ g', draw sample data g = (JsonError 500 msg_exhausted, g')).
Proof.
  intros Hdata Hlen Hacc. unfold draw.
  rewrite (validated_of_accepted data batch validated) by done.
  unfold respond.
  destruct (generate_unique_draw _ _ _) as [[result|e] g'] eqn:Hgen.
  - left. eexists _, _. split; [done|]. simpl.
    split; [by apply accepted_length|done].
  - apply attempts_Raise_inv in Hgen as ->. right. by eexists.
Qed.

Lemma int_all_ints (c : list Z) : int_all (PInt <$> c) = Ok c.
Proof. induction c as [|z c IH]; csimpl; [done|]. by rewrite IH. Qed.

Lemma accepted_ints batch validated :
  accepted ((λ c, PList (PInt <$> c)) <$> batch) validated ↔
  validated = batch ∧ Forall well_formed batch.
Proof.
  revert validated. induction batch as [|c rest IH]; intros validated; simpl.
  - split.
    + intros ->%Forall2_nil_inv_l. split; [done|constructor].
    + intros [-> _]. constructor.
  - split.
    + intros (c' & v' & [(elems & [= <-] & Hint) Hwf] & Hacc & ->)%Forall2_cons_inv_l.
      rewrite int_all_ints in Hint. injection Hint as <-.
      apply IH in Hacc as [-> Hall]. split; [done|by constructor].
    + intros [-> [Hwf Hall]%Forall_cons]. constructor.
      * split; [|done]. eexists. split; [done|apply int_all_ints].
      * apply IH. done.
Qed.

(** X12.  A body whose field "combinations" is a list of lists of JSON
    integers passes the validation exactly when the list has 1 to 200
    entries, each with 7 distinct numbers of [1,36]; the validated
    combinations are then the submitted ones, unchanged and in order. *)
Theorem integer_batch_validated (batch validated : list (list Z)) :
  validated_of (body_of batch) = inr validated ↔
  validated = batch ∧
  (1 ≤ length batch ≤ 200)%nat ∧
  Forall (λ c, length c = 7%nat ∧ Forall (λ z, 1 ≤ z ≤ 36) c ∧ NoDup c) batch.
Proof.
  assert (carries (body_of batch) ((λ c, PList (PInt <$> c)) <$> batch))
    as Hdata by (eexists; split; reflexivity).
  split.
  - intros (b & Hb & Hlen & Hacc)%validated_of_inr_inv.
    rewrite <-(carries_inj _ _ _ Hdata Hb) in Hlen, Hacc.
    rewrite length_fmap in Hlen.
    apply accepted_ints in Hacc as [-> Hall]. done.
  - intros (-> & Hlen & Hall).
    apply (validated_of_accepted _ ((λ c, PList (PInt <$> c)) <$> batch));
      [done|by rewrite length_fmap|].
    by apply accepted_ints.
Qed.

(** ** The first sample that fits *)

Section FirstFit.
Context {rng : Type}.
Variable sample : rng → list Z → nat → list Z * rng.

Lemma attempts_Ok_iff n F g D g' :
  attempts sample n F g = (Ok D, g') ↔
  ∃ k, (k < n)%nat ∧
       (∀ j, (j < k)%nat → frozenset (nth_attempt sample g j) ∈ F) ∧
       (frozenset (nth_attempt sample g k) ∉ F) ∧
       D = sorted (nth_attempt sample g k) ∧
       g' = Nat.iter (S k) (next_state sample) g.
Proof.
  revert g. induction n as [|n IH]; intros g; cbn [attempts].
  { split; [done|]. intros (k & ? & _). lia. }
  destruct (sample g population NUMBERS_PER_COMBINATION) as [d g1] eqn:Hs.
  assert (nth_attempt sample g 0 = d) as H0.
  { unfold nth_attempt, attempt; simpl. by rewrite Hs. }
  assert (∀ k, nth_attempt sample g (S k) = nth_attempt sample g1 k) as HS.
  { intros k. rewrite nth_attempt_S. unfold next_state. by rewrite Hs. }
  assert (∀ k, Nat.iter (S k) (next_state sample) g
               = Nat.iter k (next_state sample) g1) as Hit.
  { intros k. rewrite Nat.iter_succ_r. unfold next_state at 2. by rewrite Hs. }
  case_bool_decide as Hin.
  - split.
    + intros [= <- <-]. exists 0%nat. rewrite H0, Hit.
      split_and!; [lia|intros; lia|done|done|done].
    + intros ([|k] & _ & Hbefore & _ & -> & ->).
      * by rewrite H0, Hit.
      * destruct Hin. rewrite <-H0. apply Hbefore. lia.
  - rewrite IH. split.
    + intros (k & Hk & Hbefore & Hout & -> & ->). exists (S k).
      rewrite HS, Hit. split_and!; [lia| |done|done|done].
      intros [|j] Hj; [by rewrite H0|]. rewrite HS. apply Hbefore. lia.
    + intros ([|k] & Hk & Hbefore & Hout & -> & ->).
      * by rewrite H0 in Hout.
      * exists k. rewrite <-HS, <-Hit. split_and!; [lia| |done|done|done].
        intros j Hj. rewrite <-HS. apply Hbefore. lia.
Qed.
End FirstFit.

(** X13.  [generate_unique_draw] returns the first of its samples whose
    value-set is not forbidden, sorted, and leaves the random source in the
    state after that sample: it returns [D] exactly when some attempt [k]
    among the 10,000 is the first to fit and [D] is its sample sorted. *)
Theorem generate_returns_first_fit {rng : Type}
    (sample : rng → list Z → nat → list Z * rng)
    (F : list (gset Z)) (g : rng) (D : list Z) (g' : rng) :
  generate_unique_draw sample F g = (Ok D, g') ↔
  ∃ k : nat,
    Z.of_nat k < 10000 ∧
    (∀ j, (j < k)%nat → frozenset (nth_attempt sample g j) ∈ F) ∧
    (frozenset (nth_attempt sample g k) ∉ F) ∧
    D = sorted (nth_attempt sample g k) ∧
    g' = Nat.iter (S k) (next_state sample) g.
Proof.
  unfold generate_unique_draw. rewrite attempts_Ok_iff.
  assert (∀ X, X ∈ (list_to_set F : gset (gset Z)) ↔ X ∈ F) as HF
    by (intros X; apply elem_of_list_to_set).
  split; intros (k & Hk & Hbefore & Hout & HD & Hg); exists k.
  - split_and!; [by apply max_attempts_lt| |by rewrite <-HF|done|done].
    intros j Hj. by apply HF, Hbefore.
  - split_and!; [by apply max_attempts_lt| |by rewrite HF|done|done].
    intros j Hj. by apply HF, Hbefore.
Qed.

Lemma dedup_sets_set validated :
  (list_to_set (dedup_sets validated) : gset (gset Z))
  = list_to_set (frozenset <$> validated).
Proof. unfold dedup_sets. apply list_to_set_elements_L. Qed.

(** X14.  The draw and the count of unique combinations depend only on
    which value-sets were submitted: two validated batches with the same
    value-sets, in whatever order and however often repeated, get the same
    result of [generate_unique_draw] from the same random state, and the
    same count. *)
Theorem draw_depends_on_value_sets {rng : Type}
    (sample : rng → list Z → nat → list Z * rng)
    (v1 v2 : list (list Z)) (g : rng) :
  (∀ X, X ∈ frozenset <$> v1 ↔ X ∈ frozenset <$> v2) →
  generate_unique_draw sample (dedup_sets v1) g
  = generate_unique_draw sample (dedup_sets v2) g ∧
  length (dedup_sets v1) = length (dedup_sets v2).
Proof.
  intros Hsame.
  assert ((list_to_set (frozenset <$> v1) : gset (gset Z))
          = list_to_set (frozenset <$> v2)) as Heq.
  { apply set_eq. intros X. by rewrite !elem_of_list_to_set. }
  split.
  - unfold generate_unique_draw. by rewrite !dedup_sets_set, Heq.
  - unfold dedup_sets. by rewrite Heq.
Qed.

Lemma draw_depends_on_value_sets_witness :
  let v1 := [[1; 2; 3; 4; 5; 6; 7]; [8; 9; 10; 11; 12; 13; 14]] in
  let v2 := [[14; 13; 12; 11; 10; 9; 8]; [7; 6; 5; 4; 3; 2; 1];
             [8; 9; 10; 11; 12; 13; 14]] in
  let g := [[7; 1; 2; 3; 4; 5; 6]; [20; 21; 22; 23; 24; 25; 26]] in
  generate_unique_draw scripted_sample (dedup_sets v1) g
  = (Ok [20; 21; 22; 23; 24; 25; 26], []) ∧
  generate_unique_draw scripted_sample (dedup_sets v1) g
  = generate_unique_draw scripted_sample (dedup_sets v2) g ∧
  length (dedup_sets v1) = length (dedup_sets v2).
Proof.
  split; [vm_compute; reflexivity|].
  apply (draw_depends_on_value_sets scripted_sample
           [[1; 2; 3; 4; 5; 6; 7]; [8; 9; 10; 11; 12; 13; 14]]
           [[14; 13; 12; 11; 10; 9; 8]; [7; 6; 5; 4; 3; 2; 1];
            [8; 9; 10; 11; 12; 13; 14]]).
  intros X. rewrite !list_elem_of_fmap. split.
  - intros (c & -> & Hc).
    apply elem_of_cons in Hc as [->|Hc%list_elem_of_singleton].
    + exists [7; 6; 5; 4; 3; 2; 1]. split; [by vm_compute|]. right. left.
    + subst c. exists [8; 9; 10; 11; 12; 13; 14]. split; [done|].
      right. right. left.
  - intros (c & -> & Hc).
    apply elem_of_cons in Hc as [->|Hc]; [|apply elem_of_cons in Hc as [->|Hc]].
    + exists [8; 9; 10; 11; 12; 13; 14]. split; [by vm_compute|]. right. left.
    + exists [1; 2; 3; 4; 5; 6; 7]. split; [by vm_compute|]. left.
    + apply list_elem_of_singleton in Hc as ->.
      exists [8; 9; 10; 11; 12; 13; 14]. split; [done|]. right. left.
Defined.

(** ** The first check that fails *)

Lemma passes_cons z cs : passes (z :: cs) ↔ in_range z ∧ (z ∉ cs) ∧ passes cs.
Proof.
  unfold passes. rewrite Forall_cons, NoDup_cons. naive_solver.
Qed.

Lemma validate_loop_fails seen numbers m :
  validate_loop seen numbers = (false, m) ↔
  ∃ pre cs x post,
    numbers = pre ++ x :: post ∧ ints_of pre cs ∧ passes cs ∧
    (∀ z, z ∈ cs → z ∉ seen) ∧ fails_with seen cs x m.
Proof.
  revert seen. induction numbers as [|n rest IH]; intros seen.
  { split; [done|]. intros (pre & ? & ? & ? & Heq & _). by destruct pre. }
  cbn [validate_loop]. unfold fails_with.
  destruct (as_int n) as [z|] eqn:Hn.
  2:{ split.
      - intros [= <-]. exists [], [], n, rest.
        rewrite Hn. split_and!; [done|constructor|by split; constructor| |done].
        intros ? ?%elem_of_nil. done.
      - intros ([|p pre] & cs & x & post & [= -> ->] & Hints & _ & _ & Hf).
        + rewrite Hn in Hf. by subst.
        + apply Forall2_cons_inv_l in Hints as (? & ? & ? & _). congruence. }
  destruct (negb _) eqn:Hr.
  { assert (¬ in_range z) as Hout.
    { unfold in_range. apply negb_true_iff, andb_false_iff in Hr.
      destruct Hr as [?%Z.leb_gt|?%Z.leb_gt]; lia. }
    split.
    - intros [= <-]. exists [], [], n, rest. rewrite Hn.
      split_and!; [done|constructor|by split; constructor| |by left].
      intros ? ?%elem_of_nil. done.
    - intros ([|p pre] & cs & x & post & [= -> ->] & Hints & Hp & _ & Hf).
      + rewrite Hn in Hf. destruct Hf as [[_ ->]|[? _]]; done.
      + apply Forall2_cons_inv_l in Hints as (z' & cs' & Hz' & _ & ->).
        apply passes_cons in Hp as [? _]. congruence. }
  assert (in_range z) as Hin.
  { unfold in_range. apply negb_false_iff, andb_true_iff in Hr.
    destruct Hr as [?%Z.leb_le ?%Z.leb_le]. lia. }
  case_bool_decide as Hseen.
  { split.
    - intros [= <-]. exists [], [], n, rest. rewrite Hn.
      split_and!; [done|constructor|by split; constructor| |right; auto].
      intros ? ?%elem_of_nil. done.
    - intros ([|p pre] & cs & x & post & [= -> ->] & Hints & Hp & Hfresh & Hf).
      + rewrite Hn in Hf. destruct Hf as [[? _]|(_ & _ & ->)]; done.
      + apply Forall2_cons_inv_l in Hints as (z' & cs' & Hz' & _ & ->).
        assert (z' = z) as -> by congruence.
        destruct (Hfresh z); [by left|done]. }
  rewrite IH. unfold fails_with. split.
  - intros (pre & cs & x & post & -> & Hints & Hp & Hfresh & Hf).
    exists (n :: pre), (z :: cs), x, post.
    split_and!; [done|by constructor| | |].
    + apply passes_cons. split_and!; [done| |done].
      intros Hz. apply (Hfresh z Hz). set_solver.
    + intros y [->|Hy]%elem_of_cons; [done|].
      specialize (Hfresh y Hy). set_solver.
    + destruct (as_int x) as [y|]; [|done].
      destruct Hf as [?|(? & Hy & ->)]; [by left|right].
      split_and!; [done| |done]. set_solver.
  - intros ([|p pre] & cs & x & post & [= -> ->] & Hints & Hp & Hfresh & Hf).
    + apply Forall2_nil_inv_l in Hints as ->. rewrite Hn in Hf.
      destruct Hf as [[? _]|(_ & [?|?%elem_of_nil] & _)]; done.
    + apply Forall2_cons_inv_l in Hints as (z' & cs' & Hz' & Hints & ->).
      assert (z' = z) as -> by congruence.
      apply passes_cons in Hp as (_ & Hz & Hp).
      exists pre, cs', x, post. split_and!; [done|done|done| |].
      * intros y Hy. assert (y ∉ seen) by (apply Hfresh; by right).
        assert (y ≠ z) by (intros ->; done). set_solver.
      * destruct (as_int x) as [y|]; [|done].
        destruct Hf as [?|(? & Hy & ->)]; [by left|right].
        split_and!; [done| |done]. set_solver.
Qed.

Lemma ints_of_ints pre cs : ints_of (PInt <$> pre) cs ↔ cs = pre.
Proof.
  unfold ints_of. revert cs. induction pre as [|z pre IH]; intros cs; csimpl.
  - split; [by intros ->%Forall2_nil_inv_l|intros ->; constructor].
  - split.
    + intros (z' & cs' & [= <-] & ->%IH & ->)%Forall2_cons_inv_l. done.
    + intros ->. constructor; [done|]. by apply IH.
Qed.

(** X15.  [validate_combination] reports the first check that fails:
    a list whose length is not 7 gets the message about the length; a list
    of length 7 gets the message of the first element that is no integer,
    is out of range, or repeats an earlier element, whichever of the three
    that element fails first, all elements before it having passed. *)
Theorem validate_combination_first_failure (numbers : list pyval) (m : string) :
  validate_combination numbers = (false, m) ↔
  (length numbers ≠ 7%nat ∧
   m = "Each combination must have exactly 7 numbers."%string) ∨
  (length numbers = 7%nat ∧
   ∃ pre cs x post,
     numbers = pre ++ x :: post ∧
     Forall2 (λ v z, as_int v = Some z) pre cs ∧
     Forall (λ z, 1 ≤ z ≤ 36) cs ∧ NoDup cs ∧
     match as_int x with
     | None => m = "All numbers must be integers."%string
     | Some z =>
         (¬ 1 ≤ z ≤ 36 ∧ m = "All numbers must be between 1 and 36."%string) ∨
         (1 ≤ z ≤ 36 ∧ z ∈ cs ∧
          m = "Numbers within a combination must be unique."%string)
     end).
Proof.
  unfold validate_combination.
  destruct (length numbers =? NUMBERS_PER_COMBINATION)%nat eqn:Hlen; simpl.
  - apply Nat.eqb_eq in Hlen. rewrite validate_loop_fails. split.
    + intros (pre & cs & x & post & -> & Hints & [Hr Hnd] & _ & Hf).
      right. split; [done|]. exists pre, cs, x, post.
      split_and!; [done..|]. unfold fails_with in Hf.
      destruct (as_int x) as [z|]; [|done].
      destruct Hf as [?|(? & [?%not_elem_of_empty|?] & ?)]; [by left|done|].
      right. done.
    + intros [[? _]|(_ & pre & cs & x & post & -> & Hints & Hr & Hnd & Hf)];
        [done|].
      exists pre, cs, x, post. split_and!; [done|done|by split| |].
      * intros z _. set_solver.
      * unfold fails_with. destruct (as_int x) as [z|]; [|done].
        destruct Hf as [?|(? & ? & ?)]; auto.
  - apply Nat.eqb_neq in Hlen. split.
    + intros [= <-]. by left.
    + intros [[_ ->]|[? _]]; done.
Qed.

(** X16.  After the coercion, a combination of 7 integers is answered
    with "All numbers must be between 1 and 36." exactly when its first
    offending number is out of range: the numbers before it lie in [1,36]
    without a repeat. *)
Theorem validate_combination_range (c : list Z) :
  validate_combination (PInt <$> c)
  = (false, "All numbers must be between 1 and 36."%string) ↔
  length c = 7%nat ∧
  ∃ pre x post, c = pre ++ x :: post ∧
                Forall (λ z, 1 ≤ z ≤ 36) pre ∧ NoDup pre ∧ ¬ 1 ≤ x ≤ 36.
Proof.
  unfold validate_combination. rewrite length_fmap.
  destruct (length c =? NUMBERS_PER_COMBINATION)%nat eqn:Hlen; simpl.
  2:{ apply Nat.eqb_neq in Hlen. split; [done|]. by intros [? _]. }
  apply Nat.eqb_eq in Hlen. rewrite validate_loop_fails. split.
  - intros (pre & cs & x & post & Heq & Hints & [Hr Hnd] & _ & Hf).
    split; [done|].
    apply fmap_app_inv in Heq as (pre' & rest & -> & Hx & ->).
    symmetry in Hx. apply fmap_cons_inv in Hx as (x' & post' & -> & -> & ->).
    apply ints_of_ints in Hints as ->.
    exists pre', x', post'. unfold fails_with in Hf. simpl in Hf.
    destruct Hf as [[? _]|(_ & _ & ?)]; done.
  - intros (_ & pre & x & post & -> & Hr & Hnd & Hx).
    exists (PInt <$> pre), pre, (PInt x), (PInt <$> post).
    split_and!; [by rewrite fmap_app|by apply ints_of_ints|by split| |].
    + intros z _. set_solver.
    + left. done.
Qed.

(** X17.  After the coercion, a combination of 7 integers is answered
    with "Numbers within a combination must be unique." exactly when its
    first offending number lies in [1,36] and repeats one of the numbers
    before it, which lie in [1,36] without a repeat. *)
Theorem validate_combination_unique (c : list Z) :
  validate_combination (PInt <$> c)
  = (false, "Numbers within a combination must be unique."%string) ↔
  length c = 7%nat ∧
  ∃ pre x post, c = pre ++ x :: post ∧
                Forall (λ z, 1 ≤ z ≤ 36) pre ∧ NoDup pre ∧ x ∈ pre.
Proof.
  unfold validate_combination. rewrite length_fmap.
  destruct (length c =? NUMBERS_PER_COMBINATION)%nat eqn:Hlen; simpl.
  2:{ apply Nat.eqb_neq in Hlen. split; [done|]. by intros [? _]. }
  apply Nat.eqb_eq in Hlen. rewrite validate_loop_fails. split.
  - intros (pre & cs & x & post & Heq & Hints & [Hr Hnd] & _ & Hf).
    split; [done|].
    apply fmap_app_inv in Heq as (pre' & rest & -> & Hx & ->).
    symmetry in Hx. apply fmap_cons_inv in Hx as (x' & post' & -> & -> & ->).
    apply ints_of_ints in Hints as ->.
    exists pre', x', post'. unfold fails_with in Hf. simpl in Hf.
    destruct Hf as [[_ ?]|(_ & [?%not_elem_of_empty|?] & _)]; done.
  - intros (_ & pre & x & post & -> & Hr & Hnd & Hx).
    exists (PInt <$> pre), pre, (PInt x), (PInt <$> post).
    split_and!; [by rewrite fmap_app|by apply ints_of_ints|by split| |].
    + intros z _. set_solver.
    + right. split_and!; [|by right|done].
      rewrite Forall_forall in Hr. by apply Hr.
Qed.

(** ** Which combinations are reported *)

Lemma StronglySorted_index_NoDup (l : list hit_detail) :
  StronglySorted (λ x y, (index x < index y)%nat) l → NoDup (index <$> l).
Proof.
  induction 1 as [|d l Hs IH Hall]; csimpl; constructor; [|done].
  intros (d' & Heq & Hin)%list_elem_of_fmap.
  rewrite Forall_forall in Hall. specialize (Hall d' Hin). lia.
Qed.

Lemma details_Permutation combinations ds :
  details (analyse_hits combinations ds) ≡ₚ appended ds 0 combinations.
Proof. rewrite analyse_hits_eq. simpl. apply sort_desc_Permutation. Qed.

(** X18.  Every combination with 4 or more hits has exactly one record
    in [details], under its 1-based position, and no other combination
    has one: the indices in [details] are without repeat, and [i] is among
    them exactly when the combination at position [i] has at least 4 of its
    numbers in the draw. *)
Theorem details_cover (combinations : list (list Z)) (ds : gset Z) :
  NoDup (index <$> details (analyse_hits combinations ds)) ∧
  ∀ i, i ∈ index <$> details (analyse_hits combinations ds) ↔
       ∃ combo, (1 ≤ i)%nat ∧ combinations !! (i - 1)%nat = Some combo ∧
                (4 ≤ size (frozenset combo ∩ ds))%nat.
Proof.
  split.
  - rewrite details_Permutation.
    apply StronglySorted_index_NoDup, appended_sorted.
  - intros i. rewrite list_elem_of_fmap. split.
    + intros (d & -> & (j & combo & Hj & Hh & ->)%elem_of_details).
      exists combo. simpl. replace (j + 1 - 1)%nat with j by lia.
      split_and!; [lia|done|done].
    + intros (combo & Hi & Hj & Hh).
      exists (detail_of ds (i - 1) combo). split; [simpl; lia|].
      apply elem_of_details. by exists (i - 1)%nat, combo.
Qed.

(** X19.  The three counters are exact for any input: [four_hits],
    [five_hits] and [six_hits] are the numbers of combinations with exactly
    4, 5 and 6 of their numbers in the draw, and [details] has one record
    for each combination with 4 or more, so [total_with_hits] never exceeds
    the number of records. *)
Theorem counters_exact (combinations : list (list Z)) (ds : gset Z) :
  four_hits (analyse_hits combinations ds)
  = length (filter (λ c, size (frozenset c ∩ ds) = 4%nat) combinations) ∧
  five_hits (analyse_hits combinations ds)
  = length (filter (λ c, size (frozenset c ∩ ds) = 5%nat) combinations) ∧
  six_hits (analyse_hits combinations ds)
  = length (filter (λ c, size (frozenset c ∩ ds) = 6%nat) combinations) ∧
  length (details (analyse_hits combinations ds))
  = length (filter (λ c, (4 ≤ size (frozenset c ∩ ds))%nat) combinations) ∧
  (total_with_hits (analyse_hits combinations ds)
   ≤ length (details (analyse_hits combinations ds)))%nat.
Proof.
  assert (length (details (analyse_hits combinations ds))
          = length (filter (λ c, (4 ≤ hits_of ds c)%nat) combinations)) as Hd.
  { by rewrite details_Permutation, appended_length. }
  rewrite Hd, analyse_hits_eq. simpl. split_and!; try done.
  unfold count_hits. clear Hd.
  induction combinations as [|c rest IH]; [done|].
  rewrite !filter_cons. repeat case_decide; simpl; lia.
Qed.

(** X20.  In every record of [details], [hit_numbers] are the numbers of
    the combination that are in the draw and [miss_numbers] those that are
    not, and [hits] is at least 4. *)
Theorem detail_numbers (combinations : list (list Z)) (ds : gset Z)
    (d : hit_detail) :
  d ∈ details (analyse_hits combinations ds) →
  (4 ≤ hits d)%nat ∧
  (∀ z, z ∈ hit_numbers d ↔ z ∈ combination d ∧ z ∈ ds) ∧
  (∀ z, z ∈ miss_numbers d ↔ z ∈ combination d ∧ z ∉ ds).
Proof.
  intros (j & combo & Hj & Hh & ->)%elem_of_details. simpl.
  split; [done|].
  split; intros z; rewrite elem_of_sorted_elements, sorted_Permutation.
  - rewrite elem_of_intersection. unfold frozenset.
    by rewrite elem_of_list_to_set.
  - rewrite elem_of_difference. unfold frozenset.
    by rewrite elem_of_list_to_set.
Qed.

Lemma detail_numbers_witness :
  let combinations := [[30; 2; 9; 4; 1; 6; 36]; [10; 11; 12; 13; 14; 15; 16]] in
  let ds := frozenset [1; 2; 3; 4; 5; 6; 7] in
  let d := {| index := 1; combination := [1; 2; 4; 6; 9; 30; 36]; hits := 4;
              hit_numbers := [1; 2; 4; 6]; miss_numbers := [9; 30; 36] |} in
  details (analyse_hits combinations ds) = [d] ∧
  (4 ≤ hits d)%nat ∧
  (∀ z, z ∈ hit_numbers d ↔ z ∈ combination d ∧ z ∈ ds) ∧
  (∀ z, z ∈ miss_numbers d ↔ z ∈ combination d ∧ z ∉ ds).
Proof.
  split; [vm_compute; reflexivity|].
  apply (detail_numbers
           [[30; 2; 9; 4; 1; 6; 36]; [10; 11; 12; 13; 14; 15; 16]]
           (frozenset [1; 2; 3; 4; 5; 6; 7])).
  replace (details _) with
    [{| index := 1; combination := [1; 2; 4; 6; 9; 30; 36]; hits := 4;
        hit_numbers := [1; 2; 4; 6]; miss_numbers := [9; 30; 36] |}]
    by (vm_compute; reflexivity).
  apply list_elem_of_singleton. reflexivity.
Defined.

(** ** The success response *)

(** X21.  With a random source that honours the contract of
    [random.sample], the field [draw] of a success response is a list of 7
    distinct numbers of [1,36] in ascending order. *)
Theorem response_draw_well_formed {rng : Type}
    (sample : rng → list Z → nat → list Z * rng)
    (data : pyval) (g : rng) (body : Resp.body) (g' : rng) :
  sample_contract sample →
  draw sample data g = (JsonOk body, g') →
  length (Resp.draw body) = 7%nat ∧
  Forall (λ z, 1 ≤ z ≤ 36) (Resp.draw body) ∧
  StronglySorted Z.lt (Resp.draw body).
Proof.
  intros Hc (validated & _ & Hgen & _)%draw_JsonOk.
  apply generate_unique_draw_Ok in Hgen as (s & Hwf & -> & _); [|done].
  destruct (sorted_well_formed s Hwf) as ((Hlen & Hr & _) & Hs). done.
Qed.

End Interpreter.

(** * Examples

    The handler on concrete bodies, with [int_of_ascii] for the
    interpreter's [int] on strings and the scripted random source. *)

Lemma generation_failure_witness :
  (∀ k : nat, Z.of_nat k < 10000 →
     frozenset (nth_attempt scripted_sample [] k)
       ∈ [frozenset [7; 6; 5; 4; 3; 2; 1]]) ∧
  draw int_of_ascii scripted_sample (body_of [[7; 6; 5; 4; 3; 2; 1]]) []
    = (JsonError 500 msg_exhausted, []).
Proof.
  pose proof (generation_failure int_of_ascii scripted_sample)
    as (Hiff & _ & Hdraw & _).
  split.
  - apply Hiff. exists []. vm_compute. reflexivity.
  - apply (Hdraw _ [[7; 6; 5; 4; 3; 2; 1]] [] (RuntimeError msg_exhausted) []);
      vm_compute; reflexivity.
Defined.

Lemma non_integer_rejected_witness :
  let ok := PList (PInt <$> [1; 2; 3; 4; 5; 6; 7]) in
  let bad := [PInt 1; PStr "7"; PStr "abc"; PFloat (S754_infinity false); PInt 5;
              PInt 6; PInt 7] in
  draw int_of_ascii scripted_sample
    (PDict [("combinations"%string, PList [ok; PList bad; ok])]) []
  = (JsonError 400 "Combination 2 contains non-integer values.", []).
Proof.
  apply (non_integer_rejected int_of_ascii scripted_sample _
           [PList (PInt <$> [1; 2; 3; 4; 5; 6; 7]);
            PList [PInt 1; PStr "7"; PStr "abc"; PFloat (S754_infinity false);
                   PInt 5; PInt 6; PInt 7];
            PList (PInt <$> [1; 2; 3; 4; 5; 6; 7])]
           [PList (PInt <$> [1; 2; 3; 4; 5; 6; 7])]
           [PInt 1; PStr "7"] (PStr "abc")
           [PFloat (S754_infinity false); PInt 5; PInt 6; PInt 7]
           [PList (PInt <$> [1; 2; 3; 4; 5; 6; 7])]
           [[1; 2; 3; 4; 5; 6; 7]] []).
  - eexists. split; reflexivity.
  - simpl. lia.
  - reflexivity.
  - reflexivity.
  - repeat constructor; by eexists.
  - left. reflexivity.
Defined.

(** The handler does not answer as C5 is written: text that is no number
    gets another message than "All numbers must be integers.", and the
    fractional number 7.5 is taken as 7 and the batch accepted. *)
Lemma non_integer_counterexample :
  let seven_and_a_half := PFloat (S754_finite false 8444249301319680 (-50)) in
  let rest := PInt <$> [1; 2; 3; 4; 5; 6] in
  SpecFloat.bounded 53 1024 8444249301319680 (-50) = true ∧
  draw int_of_ascii scripted_sample
    (PDict [("combinations"%string, PList [PList (PStr "abc" :: rest)])]) []
  = (JsonError 400 "Combination 1 contains non-integer values.", []) ∧
  msg_invalid 0 msg_integers = "Combination 1: All numbers must be integers."%string ∧
  ∃ body,
    draw int_of_ascii scripted_sample
      (PDict [("combinations"%string, PList [PList (seven_and_a_half :: rest)])])
      [[8; 9; 10; 11; 12; 13; 14]]
    = (JsonOk body, []) ∧
    Resp.combinations_submitted body = 1%nat ∧
    Resp.draw body = [8; 9; 10; 11; 12; 13; 14].
Proof.
  split_and!; [reflexivity..|].
  eexists. split; [vm_compute; reflexivity|]. split; reflexivity.
Qed.

Lemma wrong_length_rejected_witness :
  draw int_of_ascii scripted_sample
    (PDict [("combinations"%string,
             PList [PList [PInt 1; PStr "2"; PInt 3; PInt 4; PInt 5; PInt 6]])])
    []
  = (JsonError 400
       "Combination 1: Each combination must have exactly 7 numbers.", []).
Proof.
  apply (wrong_length_rejected int_of_ascii scripted_sample _
           [PList [PInt 1; PStr "2"; PInt 3; PInt 4; PInt 5; PInt 6]] []
           [PInt 1; PStr "2"; PInt 3; PInt 4; PInt 5; PInt 6]
           [1; 2; 3; 4; 5; 6] [] [] []).
  - eexists. split; reflexivity.
  - simpl. lia.
  - reflexivity.
  - reflexivity.
  - reflexivity.
  - simpl. lia.
Defined.

(** The handler does not answer as C6 is written: a combination of the
    wrong length with an element that does not coerce gets the message of
    the coercion, although [validate_combination] alone would answer such a
    list with the message about the length. *)
Lemma wrong_length_counterexample :
  let combo := [PInt 1; PInt 2; PStr "abc"] in
  length combo ≠ 7%nat ∧
  draw int_of_ascii scripted_sample
    (PDict [("combinations"%string, PList [PList combo])]) []
  = (JsonError 400 "Combination 1 contains non-integer values.", []) ∧
  msg_invalid 0 msg_length
  = "Combination 1: Each combination must have exactly 7 numbers."%string ∧
  validate_combination combo
  = (false, "Each combination must have exactly 7 numbers."%string).
Proof. split_and!; [simpl; lia|reflexivity..]. Qed.

Lemma dedup_counts_witness :
  let data := body_of [[1; 2; 3; 4; 5; 6; 7]; [7; 6; 5; 4; 3; 2; 1];
                       [1; 2; 3; 4; 5; 6; 8]; [1; 2; 3; 4; 5; 6; 7]] in
  ∃ body,
    draw int_of_ascii scripted_sample data [[11; 12; 13; 14; 15; 16; 17]]
    = (JsonOk body, []) ∧
    Resp.combinations_submitted body = 4%nat ∧
    Resp.unique_combinations body = 2%nat.
Proof.
  eexists. split; [vm_compute; reflexivity|].
  destruct (dedup_counts int_of_ascii scripted_sample
              (body_of [[1; 2; 3; 4; 5; 6; 7]; [7; 6; 5; 4; 3; 2; 1];
                        [1; 2; 3; 4; 5; 6; 8]; [1; 2; 3; 4; 5; 6; 7]])
              [[11; 12; 13; 14; 15; 16; 17]] _ []
              ltac:(vm_compute; reflexivity))
    as (validated & Hv & Hsub & Huniq).
  injection Hv as <-. split; [exact Hsub | exact Huniq].
Defined.

Lemma success_counts_witness :
  let data := body_of [[1; 2; 3; 4; 5; 6; 7]; [1; 2; 3; 4; 5; 6; 7]] in
  let g := [[7; 6; 5; 4; 3; 2; 1]; [36; 35; 34; 33; 32; 31; 30]] in
  ∃ body,
    draw int_of_ascii scripted_sample data g = (JsonOk body, []) ∧
    Resp.draw body = [30; 31; 32; 33; 34; 35; 36] ∧
    (1 ≤ Resp.unique_combinations body
     ∧ Resp.unique_combinations body ≤ Resp.combinations_submitted body
     ∧ Resp.combinations_submitted body ≤ 200)%nat.
Proof.
  eexists. split; [vm_compute; reflexivity|]. split; [reflexivity|].
  apply (success_counts int_of_ascii scripted_sample
           (body_of [[1; 2; 3; 4; 5; 6; 7]; [1; 2; 3; 4; 5; 6; 7]])
           [[7; 6; 5; 4; 3; 2; 1]; [36; 35; 34; 33; 32; 31; 30]] _ []).
  vm_compute; reflexivity.
Defined.

Lemma no_combinations_field_witness :
  draw int_of_ascii scripted_sample (PDict [("numbers"%string, PList [PInt 1])]) []
  = (JsonError 400 "No combinations provided.", []) ∧
  draw int_of_ascii scripted_sample (PDict []) [] =
  (JsonError 400 "No combinations provided.", []).
Proof.
  split.
  - apply (no_combinations_field int_of_ascii). right. eexists. split; [reflexivity|].
    intros [[=]|?%elem_of_nil]%elem_of_cons. done.
  - apply (no_combinations_field int_of_ascii). left. reflexivity.
Defined.

Lemma no_batch_witness :
  draw int_of_ascii scripted_sample (PDict [("combinations"%string, PList [])]) []
  = (JsonError 400 "Please provide at least one combination.", []) ∧
  draw int_of_ascii scripted_sample
    (PDict [("combinations"%string, PStr "1,2,3,4,5,6,7")]) []
  = (JsonError 400 "Please provide at least one combination.", []).
Proof.
  split.
  - apply (no_batch int_of_ascii scripted_sample _ (PList [])); [reflexivity|done].
  - apply (no_batch int_of_ascii scripted_sample _ (PStr "1,2,3,4,5,6,7"));
      [reflexivity|done].
Defined.

Lemma oversized_batch_witness :
  draw int_of_ascii scripted_sample
    (PDict [("combinations"%string, PList (replicate 201 (PStr "x")))]) []
  = (JsonError 400 "Maximum 200 combinations allowed.", []).
Proof.
  apply (oversized_batch int_of_ascii scripted_sample _ (replicate 201 (PStr "x"))).
  - eexists. split; reflexivity.
  - rewrite length_replicate. lia.
Defined.

Lemma non_list_entry_witness :
  draw int_of_ascii scripted_sample
    (PDict [("combinations"%string,
             PList [PList (PInt <$> [1; 2; 3; 4; 5; 6; 7]); PInt 5])]) []
  = (JsonError 400 "Combination 2 is not a valid list.", []).
Proof.
  apply (non_list_entry int_of_ascii scripted_sample _
           [PList (PInt <$> [1; 2; 3; 4; 5; 6; 7]); PInt 5]
           [PList (PInt <$> [1; 2; 3; 4; 5; 6; 7])] (PInt 5) []
           [[1; 2; 3; 4; 5; 6; 7]]).
  - eexists. split; reflexivity.
  - simpl. lia.
  - reflexivity.
  - constructor; [|constructor]. split.
    + eexists. split; reflexivity.
    + by apply validate_combination_ints.
  - done.
Defined.

Lemma invalid_combination_witness :
  draw int_of_ascii scripted_sample
    (PDict [("combinations"%string,
             PList [PList (PInt <$> [1; 2; 3; 4; 5; 6; 7]);
                    PList [PInt 1; PStr "2"; PBool true; PInt 4; PInt 5;
                           PInt 6; PInt 7]])]) []
  = (JsonError 400
       "Combination 2: Numbers within a combination must be unique.", []).
Proof.
  apply (invalid_combination int_of_ascii scripted_sample _
           [PList (PInt <$> [1; 2; 3; 4; 5; 6; 7]);
            PList [PInt 1; PStr "2"; PBool true; PInt 4; PInt 5; PInt 6; PInt 7]]
           [PList (PInt <$> [1; 2; 3; 4; 5; 6; 7])]
           (PList [PInt 1; PStr "2"; PBool true; PInt 4; PInt 5; PInt 6; PInt 7])
           [] [[1; 2; 3; 4; 5; 6; 7]] [1; 2; 1; 4; 5; 6; 7]).
  - eexists. split; reflexivity.
  - simpl. lia.
  - reflexivity.
  - constructor; [|constructor]. split.
    + eexists. split; reflexivity.
    + by apply validate_combination_ints.
  - eexists. split; reflexivity.
  - reflexivity.
Defined.

Lemma infinite_float_escapes_witness :
  draw int_of_ascii scripted_sample
    (PDict [("combinations"%string,
             PList [PList [PInt 1; PFloat (S754_infinity false); PStr "x"]])]) []
  = (Unhandled OverflowError, []).
Proof.
  apply (infinite_float_escapes int_of_ascii scripted_sample _
           [PList [PInt 1; PFloat (S754_infinity false); PStr "x"]]
           [] [PInt 1] false [PStr "x"] [] []).
  - eexists. split; reflexivity.
  - simpl. lia.
  - reflexivity.
  - constructor.
  - constructor; [by eexists|constructor].
Defined.

Lemma non_object_body_witness :
  (draw int_of_ascii scripted_sample (PList [PList (PInt <$> [1; 2; 3; 4; 5; 6; 7])]) []
   = (JsonError 400 "No combinations provided.", []) ∨
   draw int_of_ascii scripted_sample (PList [PList (PInt <$> [1; 2; 3; 4; 5; 6; 7])]) []
   = (Unhandled TypeError, [])) ∧
  draw int_of_ascii scripted_sample (PList [PStr "combinations"]) []
  = (Unhandled TypeError, []) ∧
  draw int_of_ascii scripted_sample (PInt 7) [] = (Unhandled TypeError, []).
Proof.
  split; [|split; reflexivity].
  apply (non_object_body int_of_ascii scripted_sample). done.
Defined.

Lemma success_requires_witness :
  let data :=
    PDict [("combinations"%string,
            PList [PList [PStr "7"; PInt 1; PInt 2; PInt 3; PInt 4; PInt 5;
                          PInt 6]])] in
  ∃ body batch validated,
    draw int_of_ascii scripted_sample data [[8; 9; 10; 11; 12; 13; 14]]
    = (JsonOk body, []) ∧
    carries data batch ∧
    validated = [[7; 1; 2; 3; 4; 5; 6]] ∧
    Resp.combinations_submitted body = length batch.
Proof.
  destruct (success_requires int_of_ascii scripted_sample
              (PDict [("combinations"%string,
                       PList [PList [PStr "7"; PInt 1; PInt 2; PInt 3; PInt 4;
                                     PInt 5; PInt 6]])])
              [[8; 9; 10; 11; 12; 13; 14]] _ []
              ltac:(vm_compute; reflexivity))
    as (batch & validated & Hdata & _ & Hacc & Hn).
  eexists _, batch, validated. split; [vm_compute; reflexivity|].
  split; [exact Hdata|]. split; [|exact Hn].
  destruct Hdata as (items & [= <-] & [= <-]).
  apply Forall2_cons_inv_l in Hacc
    as (c & rest & [(elems & [= <-] & [= <-]) _] & ->%Forall2_nil_inv_l & ->).
  reflexivity.
Defined.

Lemma draw_never_matches_witness :
  let data := body_of [[1; 2; 3; 4; 5; 6; 7]; [8; 9; 10; 11; 12; 13; 14]] in
  let g := [[14; 13; 12; 11; 10; 9; 8]; [7; 6; 5; 4; 3; 2; 1];
            [1; 2; 3; 4; 5; 6; 8]] in
  ∃ body,
    draw int_of_ascii scripted_sample data g = (JsonOk body, []) ∧
    Resp.draw body = [1; 2; 3; 4; 5; 6; 8] ∧
    frozenset (Resp.draw body) ≠ frozenset [8; 9; 10; 11; 12; 13; 14].
Proof.
  eexists. split; [vm_compute; reflexivity|]. split; [reflexivity|].
  apply (draw_never_matches int_of_ascii scripted_sample
           (body_of [[1; 2; 3; 4; 5; 6; 7]; [8; 9; 10; 11; 12; 13; 14]])
           [[14; 13; 12; 11; 10; 9; 8]; [7; 6; 5; 4; 3; 2; 1];
            [1; 2; 3; 4; 5; 6; 8]] _ []
           [PList (PInt <$> [1; 2; 3; 4; 5; 6; 7]);
            PList (PInt <$> [8; 9; 10; 11; 12; 13; 14])]
           (PList (PInt <$> [8; 9; 10; 11; 12; 13; 14]))).
  - vm_compute; reflexivity.
  - eexists. split; reflexivity.
  - right. left.
  - eexists. split; reflexivity.
Defined.

Lemma valid_batch_served_witness :
  let batch := [PList [PStr " 7 "; PBool true; PInt 2; PInt 3; PInt 4; PInt 5;
                       PInt 6]] in
  let data := PDict [("combinations"%string, PList batch)] in
  accepted int_of_ascii batch [[7; 1; 2; 3; 4; 5; 6]] ∧
  ((∃ body g',
      draw int_of_ascii scripted_sample data [[1; 2; 3; 4; 5; 6; 8]]
      = (JsonOk body, g') ∧
      Resp.combinations_submitted body = length batch ∧
      Resp.hit_report body
      = analyse_hits [[7; 1; 2; 3; 4; 5; 6]] (frozenset (Resp.draw body))) ∨
   (∃ g', draw int_of_ascii scripted_sample data [[1; 2; 3; 4; 5; 6; 8]]
          = (JsonError 500 msg_exhausted, g'))).
Proof.
  assert (accepted int_of_ascii
            [PList [PStr " 7 "; PBool true; PInt 2; PInt 3; PInt 4; PInt 5;
                    PInt 6]] [[7; 1; 2; 3; 4; 5; 6]]) as Hacc.
  { constructor; [|constructor]. split.
    - eexists. split; reflexivity.
    - by apply validate_combination_ints. }
  split; [exact Hacc|].
  apply (valid_batch_served int_of_ascii scripted_sample
           (PDict [("combinations"%string,
                    PList [PList [PStr " 7 "; PBool true; PInt 2; PInt 3;
                                  PInt 4; PInt 5; PInt 6]])])
           [PList [PStr " 7 "; PBool true; PInt 2; PInt 3; PInt 4; PInt 5;
                   PInt 6]]
           [[7; 1; 2; 3; 4; 5; 6]] [[1; 2; 3; 4; 5; 6; 8]]).
  - eexists. split; reflexivity.
  - simpl. lia.
  - exact Hacc.
Defined.

Lemma response_draw_well_formed_witness :
  let data := body_of [[1; 2; 3; 4; 5; 6; 7]] in
  ∃ body,
    draw int_of_ascii scripted_sample data [[36; 1; 20; 5; 9; 2; 11]]
    = (JsonOk body, []) ∧
    Resp.draw body = [1; 2; 5; 9; 11; 20; 36] ∧
    length (Resp.draw body) = 7%nat ∧
    Forall (λ z, 1 ≤ z ≤ 36) (Resp.draw body) ∧
    StronglySorted Z.lt (Resp.draw body).
Proof.
  eexists. split; [vm_compute; reflexivity|]. split; [reflexivity|].
  apply (response_draw_well_formed int_of_ascii scripted_sample
           (body_of [[1; 2; 3; 4; 5; 6; 7]]) [[36; 1; 20; 5; 9; 2; 11]] _ []
           scripted_sample_contract).
  vm_compute; reflexivity.
Defined.

Lemma draw_hit_report_witness :
  let data := body_of [[1; 2; 3; 4; 5; 6; 7]; [1; 2; 3; 4; 5; 20; 21];
                       [30; 31; 32; 33; 34; 35; 36]] in
  ∃ body,
    draw int_of_ascii scripted_sample data [[9; 6; 5; 4; 3; 2; 1]] = (JsonOk body, []) ∧
    index <$> details (Resp.hit_report body) = [1; 2]%nat ∧
    hits <$> details (Resp.hit_report body) = [6; 5]%nat ∧
    (six_hits (Resp.hit_report body) + five_hits (Resp.hit_report body)
     + four_hits (Resp.hit_report body)
     = total_with_hits (Resp.hit_report body))%nat ∧
    total_with_hits (Resp.hit_report body)
    = length (details (Resp.hit_report body)).
Proof.
  eexists. split; [vm_compute; reflexivity|].
  split; [vm_compute; reflexivity|]. split; [vm_compute; reflexivity|].
  destruct (draw_hit_report int_of_ascii scripted_sample
              (body_of [[1; 2; 3; 4; 5; 6; 7]; [1; 2; 3; 4; 5; 20; 21];
                        [30; 31; 32; 33; 34; 35; 36]])
              [[9; 6; 5; 4; 3; 2; 1]] _ [] scripted_sample_contract
              ltac:(vm_compute; reflexivity)) as (Hsum & Htotal & _).
  split; [exact Hsum | exact Htotal].
Defined.
